(** * JSON DSL compiler: a shallow embedding of [json-dsl/src/compiler.ts]

    The development follows the TypeScript source function by function:
    [load] / [validateFunction], [compile] and the closure it returns
    ([invoke]), [executeBlock], [executeStmt], [evalExpr], [evalBinaryOp]
    and [evalUnaryOp].  The built artifact [dist/compiler.js] is the same
    program except for the iteration counter of the pre-condition loop; the
    two are told apart by the [Artifact] argument of the interpreter.

    Conventions.
    - JS numbers are IEEE binary64 values: primitive floats.
    - [Map] and [Set] objects ([scope], [functionDefs], [compiledFunctions],
      [allowedMethods]) are finite maps and sets.
    - Exceptions are an explicit outcome; the state reached when the
      exception is raised is kept, as the effects before a [throw] are.
    - Recursion through DSL function calls and the source-level [while] loop
      are unbounded, so the interpreter is indexed by fuel.
    - What the source leaves to JavaScript (the arithmetic, comparison and
      bitwise operators, property reads, method application, [Math] and
      [JSON]) is a parameter of the development, the class [JsHost]; what
      the source decides itself (dispatch, truthiness tests, the zero test
      of [/], resolution orders, the whitelist, scoping, loops) is written
      out.
    - Arrays and plain objects are values without identity: a whitelisted
      method that updates its receiver in place in JavaScript is seen here
      through the value it returns and its effect on the host world. *)

From Stdlib Require Import ZArith NArith String List Floats.PrimFloat.
From stdpp Require Import base option list gmap strings.

Set Warnings "-register-all,-inexact-float".

Local Open Scope string_scope.
Local Open Scope list_scope.

(** ** Runtime values *)

(** Where a function value was read from.  Function values are opaque to the
    evaluator: it only tests [typeof v === 'function'] and hands them back
    to the host. *)
Inductive FnRef : Type :=
| ContextBuiltin (name : string)     (* context.builtins[name] *)
| RegistryBuiltin (name : string)    (* this.builtins[name] *)
| HostFunction (label : string).     (* any other host callable *)

(** The values a DSL program computes with ([unknown] in the source).
    Arrays and plain objects are carried by value. *)
Inductive value : Type :=
| VUndefined
| VNull
| VBool (b : bool)
| VNum (x : float)
| VStr (s : string)
| VArr (elements : list value)
| VObj (fields : list (string * value))
| VFn (f : FnRef).

(** JS truthiness (ToBoolean): [undefined], [null], [false], [+0], [-0],
    [NaN] and the empty string are falsy, every other value is truthy. *)
Definition truthy (v : value) : bool :=
  match v with
  | VUndefined | VNull => false
  | VBool b => b
  | VNum x => negb (is_zero x || is_nan x)
  | VStr s => match s with EmptyString => false | String _ _ => true end
  | VArr _ | VObj _ | VFn _ => true
  end.

(** [v === null || v === undefined] *)
Definition nullish (v : value) : bool :=
  match v with
  | VUndefined | VNull => true
  | _ => false
  end.

(** [typeof v === 'function'] *)
Definition is_function (v : value) : bool :=
  match v with
  | VFn _ => true
  | _ => false
  end.

(** [r !== 0]: strict inequality with the number zero.  A value of another
    type is never strictly equal to a number; [-0 === 0] holds and
    [NaN === 0] does not. *)
Definition strict_ne_zero (r : value) : bool :=
  match r with
  | VNum x => negb (x =? 0)%float
  | _ => true
  end.

(** ** Errors and outcomes *)

(** Which check of [validateFunction] failed. *)
Inductive DefinitionFault : Type :=
| TypeMustBeFUNCTION       (* `Function "${name}": type must be "FUNCTION"` *)
| ConfigRequired           (* `Function "${name}": config is required` *)
| ParamsMustBeArray        (* `Function "${name}": config.params must be an array` *)
| BodyMustBeArray.         (* `Function "${name}": config.body must be an array` *)

(** The [Error]s the source throws, named after the taxonomy of the
    specification; the comment gives the message of the source. *)
Inductive Error : Type :=
| InvalidConfig                                   (* 'Invalid config: missing "functions" property' *)
| InvalidDefinition (name : string) (fault : DefinitionFault)
| FunctionNotFound (fnName : string)              (* `Function "${fnName}" not found` *)
| UnboundAssignment (name : string)               (* `Variable "${s.set}" is not defined` *)
| NotIterable                                     (* 'for requires an iterable' *)
| LoopLimitExceeded                               (* 'Maximum iterations exceeded (infinite loop protection)' *)
| UnknownStatement                                (* `Unknown statement: ...` *)
| UndefinedVariable (name : string)               (* `Undefined variable: "${expr}"` *)
| UnknownFunction (fnName : string)               (* `Unknown function: "${fnName}"` *)
| MethodNotAllowed (methodName : string)          (* `Method "${methodName}" is not allowed` *)
| NullReceiver (methodName : string)              (* `Cannot call method "${methodName}" on null/undefined` *)
| UnknownExpression                               (* `Unknown expression: ...` *)
| UnknownOperator (op : string)                   (* `Unknown operator: "${op}"` *)
| UnknownUnaryOperator (op : string)              (* `Unknown unary operator: "${op}"` *)
| HostError (message : string).                   (* an exception of the host: TypeError, SyntaxError, ... *)

Inductive Outcome (A : Type) : Type :=
| Ok (a : A)
| Throw (e : Error)
| OutOfFuel.

Arguments Ok {A} a.
Arguments Throw {A} e.
Arguments OutOfFuel {A}.

(** ** The host world *)

(** What host code can observe and change: the lines written with
    [console.log] (each line is the list of logged values, oldest first) and
    the number of draws made from [Math.random]. *)
Record World : Type := {
  console : list (list value);
  draws : nat;
}.

Definition Host (A : Type) : Type := World -> Outcome A * World.

(** [BuiltinFn = (...args: unknown[]) => unknown] *)
Definition BuiltinFn : Type := list value -> Host value.

Definition pure_builtin (f : list value -> value) : BuiltinFn :=
  fun args w => (Ok (f args), w).

(** [console.log(...line)] *)
Definition console_log (line : list value) : Host value :=
  fun w => (Ok VUndefined, {| console := console w ++ [line]; draws := draws w |}).

(** [args[i]], [undefined] when the argument is missing *)
Definition arg (args : list value) (i : nat) : value :=
  default VUndefined (args !! i).

(** ** The abstract syntax ([types.ts]) *)

(** [LiteralExpr.literal : string | number | boolean | null] *)
Inductive Literal : Type :=
| LitString (s : string)
| LitNumber (x : float)
| LitBoolean (b : bool)
| LitNull.

Definition literal_value (l : Literal) : value :=
  match l with
  | LitString s => VStr s
  | LitNumber x => VNum x
  | LitBoolean b => VBool b
  | LitNull => VNull
  end.

(** [BinaryOperator]; [BinOther] stands for a tag outside the declared
    union, which reaches the [default] case of [evalBinaryOp]. *)
Inductive BinaryOperator : Type :=
| OpAdd | OpSub | OpMul | OpDiv | OpMod
| OpEq | OpStrictEq | OpNe | OpStrictNe
| OpLt | OpLe | OpGt | OpGe
| OpAnd | OpOr
| OpBitAnd | OpBitOr | OpBitXor
| BinOther (op : string).

(** [UnaryOperator], with [UnOther] for the [default] case. *)
Inductive UnaryOperator : Type :=
| OpNot | OpNeg | OpPlus | OpBitNot
| UnOther (op : string).

(** [Expression].  The source tells the shapes apart by probing for their
    fields in a fixed order; the declared interfaces have pairwise
    different field sets, so a constructor per interface gives the same
    dispatch.  [ENone] is a [null] or missing slot (the first guard of
    [evalExpr]) and [EUnknown] an object of no recognised shape. *)
Inductive Expression : Type :=
| ENone
| EString (s : string)                               (* shorthand for a ref *)
| ENumber (x : float)                                (* shorthand for a literal *)
| EBoolean (b : bool)                                (* shorthand for a literal *)
| ELiteral (literal : Literal)                       (* { literal } *)
| ERef (ref : string)                                (* { ref } *)
| EBinary (operator : BinaryOperator) (left right : Expression)
| EUnary (operator : UnaryOperator) (argument : Expression)
| EMember (object : Expression) (property : string)
| EIndex (object index : Expression)
| ECall (call : string) (arguments : option (list Expression))
| EMethod (method : string) (object : Expression) (arguments : option (list Expression))
| ETernary (condition then_ else_ : Expression)
| EObject (properties : list (string * Expression))
| EArray (elements : list Expression)
| EUnknown.

(** [Statement]; [SUnknown] is an object with none of the six tags. *)
Inductive Statement : Type :=
| SLet (name : string) (value : Expression)          (* { let, value } *)
| SSet (name : string) (value : Expression)          (* { set, value } *)
| SIf (cond : Expression) (then_ : option (list Statement)) (else_ : option (list Statement))
| SFor (item : string) (in_ : Expression) (do_ : option (list Statement))
| SWhile (cond : Expression) (do_ : option (list Statement))
| SReturn (value : Expression)
| SUnknown.

(** Truthiness of an expression slot itself, as tested by
    [else if (def.config.return)]: an absent slot and the falsy shorthands
    are skipped, every object node is truthy. *)
Definition slot_present (e : Expression) : bool :=
  match e with
  | ENone => false
  | EString s => truthy (VStr s)
  | ENumber x => truthy (VNum x)
  | EBoolean b => b
  | _ => true
  end.

(** ** Function definitions *)

Record ParamDef : Type := {
  pd_name : string;
  pd_type : option string;
  pd_required : option bool;
  pd_default : option value;
}.

(** [params: string[] | ParamDef[]] *)
Inductive Params : Type :=
| ParamNames (names : list string)
| ParamDefs (defs : list ParamDef).

(** A field of a loaded document that has to be an array:
    [Absent] is a missing (or falsy) field, [NotAnArray] a truthy value for
    which [Array.isArray] is false. *)
Inductive ArrayField (A : Type) : Type :=
| Absent
| NotAnArray
| IsArray (items : A).

Arguments Absent {A}.
Arguments NotAnArray {A}.
Arguments IsArray {A} items.

Record FunctionConfig : Type := {
  fc_debug : bool;
  fc_name : option string;
  fc_description : option string;
  fc_params : ArrayField Params;
  fc_body : ArrayField (list Statement);
  fc_return : Expression;                  (* ENone when the field is absent *)
}.

(** A definition as [load] receives it: the tag is whatever string the
    document carries, and the configuration may be missing. *)
Record FunctionDef : Type := {
  fd_type : string;
  fd_config : option FunctionConfig;
}.

(** The tag the exported type model declares ([types.ts], [FunctionDef]:
    [type: 'CALLBACK']). *)
Definition FunctionDef_declared_type : string := "CALLBACK".

(** [DslConfig]; the functions are listed in [Object.entries] order. *)
Record DslConfig : Type := {
  functions : option (list (string * FunctionDef));
}.

(** ** Execution context and compiled closures *)

(** [Scope = Map<string, unknown>] *)
Abbreviation Scope := (gmap string value).

(** A plain object used as a table of callables ([Record<string, F>]).  The
    source reads such a table with [name in table] and [table[name]] only;
    both see the same properties, so the table is the finite map of the
    properties visible through them. *)
Abbreviation Table := (gmap string BuiltinFn).

(** [ExecutionContext].  The callables a context carries are host functions:
    they act on the [World] and do not call back into the compiler. *)
Record ExecutionContext : Type := {
  ctx_variables : option (list (string * value));
  ctx_functions : option Table;
  ctx_builtins : option Table;
  ctx_onCall : option (string -> list value -> Host unit);
  ctx_onReturn : option (string -> value -> Host unit);
}.

(** The closure [compile] returns: the variables its arrow function
    captures. *)
Record CompiledFunction : Type := {
  cf_fnName : string;
  cf_def : FunctionDef;
  cf_params : list string;
  cf_context : option ExecutionContext;
}.

(** The fields of [class JsonDslCompiler]. *)
Record JsonDslCompiler : Type := {
  functionDefs : gmap string FunctionDef;
  compiledFunctions : gmap string CompiledFunction;
  builtins : Table;
  allowedMethods : gset string;
  debugMode : bool;
}.

(** The two artifacts of the repository. *)
Inductive Artifact : Type :=
| SourceTs     (* src/compiler.ts *)
| DistJs.      (* dist/compiler.js *)

(** [const maxIterations = 100000], declared by the built artifact only. *)
Definition maxIterations (build : Artifact) : option N :=
  match build with
  | SourceTs => None
  | DistJs => Some 100000%N
  end.

(** ** The semantics of JavaScript the source relies on *)

(** The operators and host library the source applies to values without
    defining them.  They are JavaScript's, not the program's, and the
    development is parametric in them; [ReferenceHost] below instantiates
    them on numbers, booleans and strings. *)
Class JsHost : Type := {
  js_add : value -> value -> value;            (* l + r *)
  js_sub : value -> value -> value;            (* l - r *)
  js_mul : value -> value -> value;            (* l * r *)
  js_div : value -> value -> value;            (* l / r *)
  js_mod : value -> value -> value;            (* l % r *)
  js_eq : value -> value -> bool;              (* l == r *)
  js_strict_eq : value -> value -> bool;       (* l === r *)
  js_lt : value -> value -> bool;              (* l < r *)
  js_le : value -> value -> bool;              (* l <= r *)
  js_gt : value -> value -> bool;              (* l > r *)
  js_ge : value -> value -> bool;              (* l >= r *)
  js_bitand : value -> value -> value;         (* l & r *)
  js_bitor : value -> value -> value;          (* l | r *)
  js_bitxor : value -> value -> value;         (* l ^ r *)
  js_neg : value -> value;                     (* -arg *)
  js_pos : value -> value;                     (* +arg *)
  js_bitnot : value -> value;                  (* ~arg *)
  js_get : value -> value -> value;            (* obj[key], obj not null/undefined *)
  js_apply : value -> value -> list value -> Host value;   (* method.apply(obj, args) *)
  js_library : string -> list value -> Outcome value;      (* Math.abs, JSON.parse, ... *)
  Math_random : nat -> float;                  (* the n-th draw of Math.random() *)
  Object_prototype : Table;                    (* what a table literal inherits *)
}.

(** ** The evaluation monad *)

(** The state an evaluation threads: the compiler object ([this]) and the
    host world. *)
Record Machine : Type := {
  compiler : JsonDslCompiler;
  world : World;
}.

Definition M (A : Type) : Type := Machine -> Outcome A * Machine.

Definition ret {A} (a : A) : M A := fun m => (Ok a, m).

Definition throw {A} (e : Error) : M A := fun m => (Throw e, m).

Definition timeout {A} : M A := fun m => (OutOfFuel, m).

Definition bind {A B} (c : M A) (k : A -> M B) : M B :=
  fun m =>
    match c m with
    | (Ok a, m') => k a m'
    | (Throw e, m') => (Throw e, m')
    | (OutOfFuel, m') => (OutOfFuel, m')
    end.

Notation "'let*' x ':=' c 'in' k" := (bind c (fun x => k))
  (at level 10, x pattern, c at level 100, k at level 200).

(** [this] *)
Definition this : M JsonDslCompiler := fun m => (Ok (compiler m), m).

(** Run host code on the world. *)
Definition host {A} (h : Host A) : M A :=
  fun m =>
    let '(r, w) := h (world m) in
    (r, {| compiler := compiler m; world := w |}).

Definition lift {A} (r : Outcome A) : M A := fun m => (r, m).

(** [list.map(f)] for an effectful [f], left to right. *)
Fixpoint mapM {A B} (f : A -> M B) (l : list A) : M (list B) :=
  match l with
  | [] => ret []
  | a :: l' =>
      let* b := f a in
      let* bs := mapM f l' in
      ret (b :: bs)
  end.

(** Write a line to the console from inside an evaluation. *)
Definition log_line (line : list value) : M unit :=
  let* _ := host (console_log line) in ret tt.

(** A loop over a list whose body may produce a return signal: the signal
    stops the loop and is handed on ([if (result && result.__return__)
    return result]). *)
Fixpoint loop {A} (body : A -> Scope -> M (option value * Scope))
    (items : list A) (scope : Scope) : M (option value * Scope) :=
  match items with
  | [] => ret (None, scope)
  | item :: rest =>
      let* (result, scope) := body item scope in
      match result with
      | Some v => ret (Some v, scope)
      | None => loop body rest scope
      end
  end.

(** [t && name in t], followed by [t[name]]. *)
Definition entry (t : option Table) (name : string) : option BuiltinFn :=
  t ≫= (fun t => t !! name).

(** What [for (const item of iterable)] visits, after the guard
    [!iterable || typeof iterable[Symbol.iterator] !== 'function']: arrays
    and non-empty strings are iterable (a string by characters), nothing
    else among the values is. *)
Definition iterable_items (iterable : value) : option (list value) :=
  if negb (truthy iterable) then None
  else match iterable with
       | VArr items => Some items
       | VStr s => Some (map (fun c => VStr (String c EmptyString)) (list_ascii_of_string s))
       | _ => None
       end.

(** [params.forEach((param, i) => scope.set(param, args[i]))] *)
Fixpoint bind_params (params : list string) (i : nat) (args : list value)
    (scope : Scope) : Scope :=
  match params with
  | [] => scope
  | param :: rest => bind_params rest (S i) args (<[param := arg args i]> scope)
  end.

(** [for (const [key, value] of Object.entries(context.variables))
    scope.set(key, value)] *)
Definition seed_variables (variables : list (string * value)) (scope : Scope) : Scope :=
  fold_left (fun scope kv => <[kv.1 := kv.2]> scope) variables scope.

(** ** The compiler object *)

Section Compiler.

Context {JS : JsHost}.

(** A builtin that forwards to a function of the host library. *)
Definition library (name : string) (pick : list value -> list value) : BuiltinFn :=
  fun args w => (js_library name (pick args), w).

Definition first_arg (args : list value) : list value := [arg args 0].

(** [obj || {}] *)
Definition or_empty_object (obj : value) : value :=
  if truthy obj then obj else VObj [].

(** [createBuiltins()]: the 23 own entries of the literal, over what the
    literal inherits from [Object.prototype]. *)
Definition createBuiltins : Table :=
  list_to_map [
    ("abs", library "Math.abs" first_arg);
    ("floor", library "Math.floor" first_arg);
    ("ceil", library "Math.ceil" first_arg);
    ("round", library "Math.round" first_arg);
    ("min", library "Math.min" id);
    ("max", library "Math.max" id);
    ("pow", library "Math.pow" (fun args => [arg args 0; arg args 1]));
    ("sqrt", library "Math.sqrt" first_arg);
    ("random", fun _ w =>
       (Ok (VNum (Math_random (draws w))),
        {| console := console w; draws := S (draws w) |}));
    ("len", pure_builtin (fun args =>
       match arg args 0 with
       | (VArr _ | VStr _) as x => js_get x (VStr "length")
       | _ => VNum 0
       end));
    ("keys", library "Object.keys" (fun args => [or_empty_object (arg args 0)]));
    ("values", library "Object.values" (fun args => [or_empty_object (arg args 0)]));
    ("entries", library "Object.entries" (fun args => [or_empty_object (arg args 0)]));
    ("isArray", pure_builtin (fun args =>
       VBool match arg args 0 with VArr _ => true | _ => false end));
    ("isNumber", pure_builtin (fun args =>
       VBool match arg args 0 with VNum _ => true | _ => false end));
    ("isString", pure_builtin (fun args =>
       VBool match arg args 0 with VStr _ => true | _ => false end));
    ("isObject", pure_builtin (fun args =>
       VBool match arg args 0 with VObj _ => true | _ => false end));
    ("isNull", pure_builtin (fun args => VBool (nullish (arg args 0))));
    ("toNumber", library "Number" first_arg);
    ("toString", library "String" first_arg);
    ("toJson", library "JSON.stringify" first_arg);
    ("fromJson", library "JSON.parse" first_arg);
    ("log", fun args => console_log (VStr "[DSL]" :: args))
  ] ∪ Object_prototype.

(** [constructor()] *)
Definition constructor : JsonDslCompiler := {|
  functionDefs := ∅;
  compiledFunctions := ∅;
  builtins := createBuiltins;
  allowedMethods := list_to_set [
    "length"; "push"; "pop"; "shift"; "unshift"; "slice"; "concat";
    "indexOf"; "includes"; "find"; "filter"; "map"; "reduce";
    "join"; "split"; "trim"; "toLowerCase"; "toUpperCase";
    "substring"; "charAt"; "startsWith"; "endsWith";
    "keys"; "values"; "entries"; "hasOwnProperty";
    "toString"; "toFixed"
  ];
  debugMode := false;
|}.

(** Update a field of [this]. *)
Definition set_functionDefs (f : gmap string FunctionDef -> gmap string FunctionDef) : M unit :=
  fun m =>
    let c := compiler m in
    (Ok tt, {| compiler := {| functionDefs := f (functionDefs c);
                              compiledFunctions := compiledFunctions c;
                              builtins := builtins c;
                              allowedMethods := allowedMethods c;
                              debugMode := debugMode c |};
               world := world m |}).

Definition set_compiledFunctions
    (f : gmap string CompiledFunction -> gmap string CompiledFunction) : M unit :=
  fun m =>
    let c := compiler m in
    (Ok tt, {| compiler := {| functionDefs := functionDefs c;
                              compiledFunctions := f (compiledFunctions c);
                              builtins := builtins c;
                              allowedMethods := allowedMethods c;
                              debugMode := debugMode c |};
               world := world m |}).

Definition set_builtins (f : Table -> Table) : M unit :=
  fun m =>
    let c := compiler m in
    (Ok tt, {| compiler := {| functionDefs := functionDefs c;
                              compiledFunctions := compiledFunctions c;
                              builtins := f (builtins c);
                              allowedMethods := allowedMethods c;
                              debugMode := debugMode c |};
               world := world m |}).

(** [validateFunction(name, def)] *)
Definition validateFunction (name : string) (def : FunctionDef) : Outcome unit :=
  if negb (String.eqb (fd_type def) "FUNCTION") then
    Throw (InvalidDefinition name TypeMustBeFUNCTION)
  else
    match fd_config def with
    | None => Throw (InvalidDefinition name ConfigRequired)
    | Some config =>
        match fc_params config with
        | Absent | NotAnArray => Throw (InvalidDefinition name ParamsMustBeArray)
        | IsArray _ =>
            match fc_body config with
            | Absent | NotAnArray => Throw (InvalidDefinition name BodyMustBeArray)
            | IsArray _ => Ok tt
            end
        end
    end.

(** The loop of [load]: validate, then store, entry by entry. *)
Fixpoint load_entries (entries : list (string * FunctionDef)) : M unit :=
  match entries with
  | [] => ret tt
  | (name, def) :: rest =>
      let* _ := lift (validateFunction name def) in
      let* _ := set_functionDefs (fun defs => <[name := def]> defs) in
      load_entries rest
  end.

(** [load(config)] *)
Definition load (config : option DslConfig) : M unit :=
  match config ≫= functions with
  | None => throw InvalidConfig
  | Some entries => load_entries entries
  end.

(** [normalizeParams(params)].  A truthy value that is not an array has no
    [map]; the host raises a TypeError on it. *)
Definition normalizeParams (params : ArrayField Params) : Outcome (list string) :=
  match params with
  | Absent => Ok []
  | NotAnArray => Throw (HostError "TypeError")
  | IsArray (ParamNames names) => Ok names
  | IsArray (ParamDefs defs) => Ok (map pd_name defs)
  end.

(** [compile(fnName, context)]: builds the closure and caches it under the
    function name. *)
Definition compile (fnName : string) (context : option ExecutionContext)
    : M CompiledFunction :=
  let* self := this in
  match functionDefs self !! fnName with
  | None => throw (FunctionNotFound fnName)
  | Some def =>
      match fd_config def with
      | None => throw (HostError "TypeError")
      | Some config =>
          let* params := lift (normalizeParams (fc_params config)) in
          let compiledFn := {| cf_fnName := fnName; cf_def := def;
                               cf_params := params; cf_context := context |} in
          let* _ := set_compiledFunctions (fun cache => <[fnName := compiledFn]> cache) in
          ret compiledFn
      end
  end.

(** [get(fnName)] *)
Definition get (fnName : string) : M (option CompiledFunction) :=
  let* self := this in
  ret (compiledFunctions self !! fnName).

(** [addBuiltin(name, fn)]: [this.builtins[name] = fn], an own entry of the
    table.  For the name [__proto__] the assignment of the source replaces
    the prototype of the table instead; statements about the entries of the
    table after [addBuiltin] exclude that name. *)
Definition addBuiltin (name : string) (fn : BuiltinFn) : M unit :=
  set_builtins (fun table => <[name := fn]> table).

End Compiler.

(** ** The evaluator *)

Section Evaluator.

Context {JS : JsHost}.

(** Which artifact runs: it decides whether the pre-condition loop counts
    its iterations. *)
Variable build : Artifact.

(** [evalBinaryOp(op, l, r)] *)
Definition evalBinaryOp (op : BinaryOperator) (l r : value) : Outcome value :=
  match op with
  | OpAdd => Ok (js_add l r)
  | OpSub => Ok (js_sub l r)
  | OpMul => Ok (js_mul l r)
  | OpDiv => Ok (if strict_ne_zero r then js_div l r else VNum 0)
  | OpMod => Ok (js_mod l r)
  | OpEq => Ok (VBool (js_eq l r))
  | OpStrictEq => Ok (VBool (js_strict_eq l r))
  | OpNe => Ok (VBool (negb (js_eq l r)))
  | OpStrictNe => Ok (VBool (negb (js_strict_eq l r)))
  | OpLt => Ok (VBool (js_lt l r))
  | OpLe => Ok (VBool (js_le l r))
  | OpGt => Ok (VBool (js_gt l r))
  | OpGe => Ok (VBool (js_ge l r))
  | OpAnd => Ok (if truthy l then r else l)
  | OpOr => Ok (if truthy l then l else r)
  | OpBitAnd => Ok (js_bitand l r)
  | OpBitOr => Ok (js_bitor l r)
  | OpBitXor => Ok (js_bitxor l r)
  | BinOther op => Throw (UnknownOperator op)
  end.

(** [evalUnaryOp(op, arg)] *)
Definition evalUnaryOp (op : UnaryOperator) (arg : value) : Outcome value :=
  match op with
  | OpNot => Ok (VBool (negb (truthy arg)))
  | OpNeg => Ok (js_neg arg)
  | OpPlus => Ok (js_pos arg)
  | OpBitNot => Ok (js_bitnot arg)
  | UnOther op => Throw (UnknownUnaryOperator op)
  end.

(** [++iterations > maxIterations], where the artifact has the counter. *)
Definition over_limit (iterations : N) : bool :=
  match maxIterations build with
  | Some limit => (limit <? iterations)%N
  | None => false
  end.

(** [evalExpr], [executeStmt], [executeBlock], the body of the [while]
    statement and the closure returned by [compile]. *)
Fixpoint evalExpr (fuel : nat) (expr : Expression) (scope : Scope)
    (context : option ExecutionContext) {struct fuel} : M value :=
  match fuel with
  | O => timeout
  | S fuel =>
    match expr with
    | ENone => ret VNull
    (* Shorthand: string -> ref, number/boolean -> literal *)
    | EString expr =>
        match scope !! expr with
        | Some v => ret v
        | None =>
            match entry (context ≫= ctx_builtins) expr with
            | Some _ => ret (VFn (ContextBuiltin expr))
            | None =>
                let* self := this in
                match builtins self !! expr with
                | Some _ => ret (VFn (RegistryBuiltin expr))
                | None => throw (UndefinedVariable expr)
                end
            end
        end
    | ENumber x => ret (VNum x)
    | EBoolean b => ret (VBool b)
    (* LITERAL *)
    | ELiteral literal => ret (literal_value literal)
    (* REF *)
    | ERef ref =>
        match scope !! ref with
        | Some v => ret v
        | None =>
            match entry (context ≫= ctx_builtins) ref with
            | Some _ => ret (VFn (ContextBuiltin ref))
            | None =>
                let* self := this in
                match builtins self !! ref with
                | Some _ => ret (VFn (RegistryBuiltin ref))
                | None => throw (UndefinedVariable ref)
                end
            end
        end
    (* BINARY *)
    | EBinary operator e_left e_right =>
        let* l := evalExpr fuel e_left scope context in
        let* r := evalExpr fuel e_right scope context in
        lift (evalBinaryOp operator l r)
    (* UNARY *)
    | EUnary operator argument =>
        let* arg := evalExpr fuel argument scope context in
        lift (evalUnaryOp operator arg)
    (* MEMBER *)
    | EMember object property =>
        let* obj := evalExpr fuel object scope context in
        if nullish obj then ret VUndefined
        else ret (js_get obj (VStr property))
    (* INDEX *)
    | EIndex object index =>
        let* obj := evalExpr fuel object scope context in
        let* idx := evalExpr fuel index scope context in
        if nullish obj then ret VUndefined
        else ret (js_get obj idx)
    (* CALL *)
    | ECall fnName arguments =>
        let* args := mapM (fun a => evalExpr fuel a scope context) (default [] arguments) in
        match entry (context ≫= ctx_builtins) fnName with
        | Some builtin => host (builtin args)
        | None =>
            let* self := this in
            match builtins self !! fnName with
            | Some builtin => host (builtin args)
            | None =>
                match entry (context ≫= ctx_functions) fnName with
                | Some fn => host (fn args)
                | None =>
                    match compiledFunctions self !! fnName with
                    | Some compiledFn => invoke fuel compiledFn args
                    | None =>
                        match functionDefs self !! fnName with
                        | Some _ =>
                            let* fn := compile fnName context in
                            invoke fuel fn args
                        | None => throw (UnknownFunction fnName)
                        end
                    end
                end
            end
        end
    (* METHOD *)
    | EMethod methodName object arguments =>
        let* obj := evalExpr fuel object scope context in
        let* self := this in
        if negb (bool_decide (methodName ∈ allowedMethods self)) then
          throw (MethodNotAllowed methodName)
        else if nullish obj then
          throw (NullReceiver methodName)
        else
          let method := js_get obj (VStr methodName) in
          if negb (is_function method) then ret method
          else
            let* args := mapM (fun a => evalExpr fuel a scope context) (default [] arguments) in
            host (js_apply method obj args)
    (* TERNARY *)
    | ETernary condition then_ else_ =>
        let* cond := evalExpr fuel condition scope context in
        if truthy cond then evalExpr fuel then_ scope context
        else evalExpr fuel else_ scope context
    (* OBJECT: the own properties of the result, one per key of the node.
       For the key [__proto__] the assignment [result[key] = v] of the
       source sets the prototype of the result instead; statements about
       the keys of the result exclude that key. *)
    | EObject properties =>
        let* result :=
          mapM (fun kv => let* v := evalExpr fuel kv.2 scope context in ret (kv.1, v))
               properties in
        ret (VObj result)
    (* ARRAY *)
    | EArray elements =>
        let* result := mapM (fun el => evalExpr fuel el scope context) elements in
        ret (VArr result)
    | EUnknown => throw UnknownExpression
    end
  end

with executeStmt (fuel : nat) (stmt : Statement) (scope : Scope)
    (context : option ExecutionContext) {struct fuel} : M (option value * Scope) :=
  match fuel with
  | O => timeout
  | S fuel =>
    match stmt with
    (* LET *)
    | SLet name value =>
        let* value := evalExpr fuel value scope context in
        ret (None, <[name := value]> scope)
    (* SET *)
    | SSet name value =>
        match scope !! name with
        | None => throw (UnboundAssignment name)
        | Some _ =>
            let* value := evalExpr fuel value scope context in
            ret (None, <[name := value]> scope)
        end
    (* IF *)
    | SIf cond then_ else_ =>
        let* cond := evalExpr fuel cond scope context in
        if truthy cond then executeBlock fuel (default [] then_) scope context
        else match else_ with
             | Some else_ => executeBlock fuel else_ scope context
             | None => ret (None, scope)
             end
    (* FOR: the items are those the iterable holds when the loop starts.
       Values have no identity here, so a body that grows or shrinks the
       array it iterates through an in-place method of the host is outside
       the embedding; statements about loops are made for bodies without
       calls, or do not depend on the number of iterations. *)
    | SFor item in_ do_ =>
        let* iterable := evalExpr fuel in_ scope context in
        match iterable_items iterable with
        | None => throw NotIterable
        | Some items =>
            loop (fun value scope =>
                    executeBlock fuel (default [] do_) (<[item := value]> scope) context)
                 items scope
        end
    (* WHILE *)
    | SWhile cond do_ => whileLoop fuel 0%N cond do_ scope context
    (* RETURN *)
    | SReturn value =>
        let* value := evalExpr fuel value scope context in
        ret (Some value, scope)
    | SUnknown => throw UnknownStatement
    end
  end

(** The [while] statement from its guard on; [iterations] is the counter of
    the built artifact. *)
with whileLoop (fuel : nat) (iterations : N) (cond : Expression)
    (do_ : option (list Statement)) (scope : Scope)
    (context : option ExecutionContext) {struct fuel} : M (option value * Scope) :=
  match fuel with
  | O => timeout
  | S fuel =>
      let* guard := evalExpr fuel cond scope context in
      if truthy guard then
        let iterations := (iterations + 1)%N in
        if over_limit iterations then throw LoopLimitExceeded
        else
          let* (result, scope) := executeBlock fuel (default [] do_) scope context in
          match result with
          | Some v => ret (Some v, scope)
          | None => whileLoop fuel iterations cond do_ scope context
          end
      else ret (None, scope)
  end

with executeBlock (fuel : nat) (statements : list Statement) (scope : Scope)
    (context : option ExecutionContext) {struct fuel} : M (option value * Scope) :=
  match fuel with
  | O => timeout
  | S fuel =>
      loop (fun stmt scope => executeStmt fuel stmt scope context) statements scope
  end

(** The arrow function [compile] returns, applied to [args]. *)
with invoke (fuel : nat) (compiledFn : CompiledFunction) (args : list value)
    {struct fuel} : M value :=
  match fuel with
  | O => timeout
  | S fuel =>
      let fnName := cf_fnName compiledFn in
      let context := cf_context compiledFn in
      let scope : Scope := ∅ in
      let scope :=
        match context ≫= ctx_variables with
        | Some variables => seed_variables variables scope
        | None => scope
        end in
      let scope := bind_params (cf_params compiledFn) 0 args scope in
      let* _ :=
        match context ≫= ctx_onCall with
        | Some onCall => host (onCall fnName args)
        | None => ret tt
        end in
      match fd_config (cf_def compiledFn) with
      | None => throw (HostError "TypeError")
      | Some config =>
          let* _ :=
            if fc_debug config
            then log_line [VStr ("[DEBUG] " ++ fnName ++ " called with:"); VArr args]
            else ret tt in
          match fc_body config with
          | Absent | NotAnArray => throw (HostError "TypeError")
          | IsArray body =>
              let* (result, scope) := executeBlock fuel body scope context in
              let* returnValue :=
                match result with
                | Some v => ret v
                | None =>
                    if slot_present (fc_return config)
                    then evalExpr fuel (fc_return config) scope context
                    else ret VUndefined
                end in
              let* _ :=
                if fc_debug config
                then log_line [VStr ("[DEBUG] " ++ fnName ++ " returned:"); returnValue]
                else ret tt in
              let* _ :=
                match context ≫= ctx_onReturn with
                | Some onReturn => host (onReturn fnName returnValue)
                | None => ret tt
                end in
              ret returnValue
          end
      end
  end.

End Evaluator.

(** ** A reference host *)

(** JavaScript's operators on the operand types the examples use: numbers
    for arithmetic and comparisons, strings for [+] and equality, arrays and
    plain objects for property reads.  Outside these types the host answers
    [NaN], [false] or [undefined]; nothing below depends on those answers. *)
Module ReferenceHost.

Definition arith (f : float -> float -> float) (l r : value) : value :=
  match l, r with
  | VNum a, VNum b => VNum (f a b)
  | _, _ => VNum nan
  end.

Definition compare (f : float -> float -> bool) (l r : value) : bool :=
  match l, r with
  | VNum a, VNum b => f a b
  | _, _ => false
  end.

Definition add (l r : value) : value :=
  match l, r with
  | VNum a, VNum b => VNum (a + b)
  | VStr a, VStr b => VStr (a ++ b)
  | _, _ => VNum nan
  end.

Definition strict_eq (l r : value) : bool :=
  match l, r with
  | VUndefined, VUndefined | VNull, VNull => true
  | VBool a, VBool b => Bool.eqb a b
  | VNum a, VNum b => (a =? b)%float
  | VStr a, VStr b => String.eqb a b
  | _, _ => false
  end.

Definition eq (l r : value) : bool :=
  match l, r with
  | (VUndefined | VNull), (VUndefined | VNull) => true
  | _, _ => strict_eq l r
  end.

(** The number [n], for an array length or position. *)
Fixpoint number_of_nat (n : nat) : float :=
  match n with
  | O => 0
  | S n' => number_of_nat n' + 1
  end.

(** [items[idx]], the positions counted from [i]. *)
Fixpoint at_index (items : list value) (i : nat) (idx : float) : value :=
  match items with
  | [] => VUndefined
  | item :: rest =>
      if (number_of_nat i =? idx)%float then item else at_index rest (S i) idx
  end.

Fixpoint field (fields : list (string * value)) (key : string) : value :=
  match fields with
  | [] => VUndefined
  | (k, v) :: rest => if String.eqb k key then v else field rest key
  end.

Definition get (obj key : value) : value :=
  match obj, key with
  | VArr items, VNum idx => at_index items 0 idx
  | VArr items, VStr "length" => VNum (number_of_nat (length items))
  | VStr s, VStr "length" => VNum (number_of_nat (String.length s))
  | VObj fields, VStr key => field fields key
  | _, _ => VUndefined
  end.

Definition host_library (name : string) (args : list value) : Outcome value :=
  match name, args with
  | "Math.abs", [VNum x] => Ok (VNum (abs x))
  | "Math.sqrt", [VNum x] => Ok (VNum (sqrt x))
  | _, _ => Ok VUndefined
  end.

Definition opaque : BuiltinFn := pure_builtin (fun _ => VUndefined).

(** The property names of [Object.prototype]. *)
Definition prototype_members : Table :=
  list_to_map (map (fun name => (name, opaque)) [
    "constructor"; "__defineGetter__"; "__defineSetter__"; "hasOwnProperty";
    "__lookupGetter__"; "__lookupSetter__"; "isPrototypeOf";
    "propertyIsEnumerable"; "toString"; "valueOf"; "__proto__";
    "toLocaleString" ]).

#[export] Instance host : JsHost := {|
  js_add := add;
  js_sub := arith PrimFloat.sub;
  js_mul := arith PrimFloat.mul;
  js_div := arith PrimFloat.div;
  js_mod := fun _ _ => VNum nan;
  js_eq := eq;
  js_strict_eq := strict_eq;
  js_lt := compare PrimFloat.ltb;
  js_le := compare PrimFloat.leb;
  js_gt := fun l r => compare PrimFloat.ltb r l;
  js_ge := fun l r => compare PrimFloat.leb r l;
  js_bitand := fun _ _ => VNum nan;
  js_bitor := fun _ _ => VNum nan;
  js_bitxor := fun _ _ => VNum nan;
  js_neg := fun v => match v with VNum x => VNum (- x) | _ => VNum nan end;
  js_pos := fun v => match v with VNum x => VNum x | _ => VNum nan end;
  js_bitnot := fun _ => VNum nan;
  js_get := get;
  js_apply := fun _ _ _ => pure_builtin (fun _ => VUndefined) [];
  js_library := host_library;
  Math_random := fun _ => 0.5%float;
  Object_prototype := prototype_members;
|}.

End ReferenceHost.

(** ** Sample programs *)

(** The machine after [new JsonDslCompiler()], with an empty console. *)
Definition start `{JsHost} : Machine := {|
  compiler := constructor;
  world := {| console := []; draws := 0 |};
|}.

Definition function (params : list string) (body : list Statement) (result : Expression)
    : FunctionDef := {|
  fd_type := "FUNCTION";
  fd_config := Some {| fc_debug := false; fc_name := None; fc_description := None;
                       fc_params := IsArray (ParamNames params);
                       fc_body := IsArray body;
                       fc_return := result |};
|}.

Definition variables_only (variables : list (string * value)) : ExecutionContext := {|
  ctx_variables := Some variables;
  ctx_functions := None;
  ctx_builtins := None;
  ctx_onCall := None;
  ctx_onReturn := None;
|}.

(** [add], [sumArray], [calculatePrice] and [factorial] of the README. *)
Definition add_def : FunctionDef :=
  function ["a"; "b"] [] (EBinary OpAdd (ERef "a") (ERef "b")).

Definition sumArray_body : list Statement := [
  SLet "total" (ELiteral (LitNumber 0));
  SFor "item" (ERef "items")
    (Some [SSet "total" (EBinary OpAdd (ERef "total") (ERef "item"))])
].

Definition sumArray_def : FunctionDef :=
  function ["items"] sumArray_body (ERef "total").

Definition calculatePrice_body : list Statement := [
  SLet "priceWithTax"
    (EBinary OpMul (ERef "basePrice")
       (EBinary OpAdd (ELiteral (LitNumber 1)) (ERef "taxRate")));
  SLet "finalPrice"
    (EBinary OpMul (ERef "priceWithTax")
       (EBinary OpSub (ELiteral (LitNumber 1)) (ERef "discount")))
].

Definition calculatePrice_def : FunctionDef :=
  function ["basePrice"] calculatePrice_body (ERef "finalPrice").

Definition factorial_def : FunctionDef :=
  function ["n"] [
    SLet "result" (ELiteral (LitNumber 1));
    SLet "i" (ELiteral (LitNumber 1));
    SWhile (EBinary OpLe (ERef "i") (ERef "n")) (Some [
      SSet "result" (EBinary OpMul (ERef "result") (ERef "i"));
      SSet "i" (EBinary OpAdd (ERef "i") (ELiteral (LitNumber 1)))
    ])
  ] (ERef "result").

Definition sample_config : option DslConfig :=
  Some {| functions := Some [
    ("add", add_def); ("sumArray", sumArray_def);
    ("calculatePrice", calculatePrice_def); ("factorial", factorial_def) ] |}.

(** [compiler.load(config); compiler.compile(fnName, context)(...args)] *)
Definition load_compile_call `{JsHost} (build : Artifact) (fuel : nat)
    (config : option DslConfig) (fnName : string)
    (context : option ExecutionContext) (args : list value) : M value :=
  let* _ := load config in
  let* fn := compile fnName context in
  invoke build fuel fn args.

(** ** Vocabulary of the properties *)

(** The value of [l && r] and [l || r] once both operands are values. *)
Definition logical_value (operator : BinaryOperator) (l r : value) : value :=
  match operator with
  | OpAnd => if truthy l then r else l
  | _ => if truthy l then l else r
  end.

(** The parts of the compiler that evaluation does not write to: the loaded
    definitions, the builtin table and the method whitelist. *)
Definition same_registry (c c' : JsonDslCompiler) : Prop :=
  functionDefs c' = functionDefs c
  /\ builtins c' = builtins c
  /\ allowedMethods c' = allowedMethods c.

(** A computation that leaves them as they were, however it ends. *)
Definition keeps_registry {A} (c : M A) : Prop :=
  forall m, same_registry (compiler m) (compiler (c m).2).

(** Every stored definition carries the tag ["FUNCTION"]. *)
Definition only_FUNCTION_definitions (c : JsonDslCompiler) : Prop :=
  forall name def, functionDefs c !! name = Some def -> fd_type def = "FUNCTION".

(** ** Inputs of the examples *)

(** The starting machine after one line was written to the console. *)
Definition logged `{JsHost} (line : list value) : Machine := {|
  compiler := constructor;
  world := {| console := [line]; draws := 0 |};
|}.

(** [true || log(1)] and [false && log(1)] *)
Definition log_call : Expression := ECall "log" (Some [ENumber 1]).

Definition true_or_log : Expression := EBinary OpOr (EBoolean true) log_call.

Definition false_and_log : Expression := EBinary OpAnd (EBoolean false) log_call.

(** [true || missing], where [missing] is bound nowhere *)
Definition true_or_missing : Expression :=
  EBinary OpOr (EBoolean true) (ERef "missing").


(** The starting machine with one definition loaded. *)
Definition loaded `{JsHost} (fnName : string) (def : FunctionDef) : Machine := {|
  compiler := {| functionDefs := {[ fnName := def ]};
                 compiledFunctions := ∅;
                 builtins := createBuiltins;
                 allowedMethods := allowedMethods constructor;
                 debugMode := false |};
  world := {| console := []; draws := 0 |};
|}.

(** [add] as [demo.ts] writes it, with the tag of the type model. *)
Definition callback_add : FunctionDef := {|
  fd_type := "CALLBACK";
  fd_config := fd_config add_def;
|}.

(** The two contexts of the price example. *)
Definition us_variables : list (string * value) :=
  [("taxRate", VNum 0.08); ("discount", VNum 0.1)].

Definition eu_variables : list (string * value) :=
  [("taxRate", VNum 0.2); ("discount", VNum 0.05)].

Definition us_context : ExecutionContext := variables_only us_variables.

Definition eu_context : ExecutionContext := variables_only eu_variables.

(** [compiler.load(config)], then [compile] the function with the first
    context and with the second, then call both closures. *)
Definition compile_twice_and_call `{JsHost} (build : Artifact) (fuel : nat)
    (config : option DslConfig) (fnName : string)
    (context1 context2 : option ExecutionContext) (args : list value)
    : M (value * value) :=
  let* _ := load config in
  let* fn1 := compile fnName context1 in
  let* fn2 := compile fnName context2 in
  let* r1 := invoke build fuel fn1 args in
  let* r2 := invoke build fuel fn2 args in
  ret (r1, r2).

(** [c'] answers as [c] does wherever [c] does not run out of fuel. *)
Definition extends {A} (c c' : M A) : Prop :=
  forall m r m', c m = (r, m') -> r <> OutOfFuel -> c' m = (r, m').

(** A pre-condition loop whose guard never becomes falsy: on every scope and
    machine in [I], the guard evaluates to a truthy value and the body runs
    to its end without a return signal, back into [I]. *)
Definition guard_never_falsy `{JsHost} (build : Artifact) (cond : Expression)
    (do_ : option (list Statement)) (context : option ExecutionContext)
    (I : Scope -> Machine -> Prop) : Prop :=
  forall scope m, I scope m ->
    exists fuel guard m1 scope' m2,
      evalExpr build fuel cond scope context m = (Ok guard, m1)
      /\ truthy guard = true
      /\ executeBlock build fuel (default [] do_) scope context m1
         = (Ok (None, scope'), m2)
      /\ I scope' m2.

(** ** Vocabulary of the further properties *)

(** An expression without function calls and method calls. *)
Fixpoint effect_free (e : Expression) : bool :=
  match e with
  | ENone | EString _ | ENumber _ | EBoolean _ | ELiteral _ | ERef _ | EUnknown => true
  | EBinary _ e_left e_right => effect_free e_left && effect_free e_right
  | EUnary _ argument => effect_free argument
  | EMember object _ => effect_free object
  | EIndex object index => effect_free object && effect_free index
  | ECall _ _ | EMethod _ _ _ => false
  | ETernary condition then_ else_ =>
      effect_free condition && effect_free then_ && effect_free else_
  | EObject properties => forallb (fun kv => effect_free kv.2) properties
  | EArray elements => forallb effect_free elements
  end.

(** The nesting depth of an expression. *)
Fixpoint height (e : Expression) : nat :=
  match e with
  | ENone | EString _ | ENumber _ | EBoolean _ | ELiteral _ | ERef _ | EUnknown => 0
  | EBinary _ e_left e_right => S (height e_left `max` height e_right)
  | EUnary _ argument => S (height argument)
  | EMember object _ => S (height object)
  | EIndex object index => S (height object `max` height index)
  | ECall _ arguments =>
      S match arguments with
        | Some arguments => fold_right (fun a n => height a `max` n) 0 arguments
        | None => 0
        end
  | EMethod _ object arguments =>
      S (height object
         `max` match arguments with
               | Some arguments => fold_right (fun a n => height a `max` n) 0 arguments
               | None => 0
               end)
  | ETernary condition then_ else_ =>
      S (height condition `max` (height then_ `max` height else_))
  | EObject properties => S (fold_right (fun kv n => height kv.2 `max` n) 0 properties)
  | EArray elements => S (fold_right (fun a n => height a `max` n) 0 elements)
  end.

(** A statement none of whose expressions contains a call. *)
Fixpoint call_free (stmt : Statement) : bool :=
  match stmt with
  | SLet _ value | SSet _ value | SReturn value => effect_free value
  | SIf cond then_ else_ =>
      effect_free cond
      && match then_ with Some block => forallb call_free block | None => true end
      && match else_ with Some block => forallb call_free block | None => true end
  | SFor _ in_ do_ =>
      effect_free in_
      && match do_ with Some block => forallb call_free block | None => true end
  | SWhile cond do_ =>
      effect_free cond
      && match do_ with Some block => forallb call_free block | None => true end
  | SUnknown => true
  end.

(** A statement that contains no [while] statement. *)
Fixpoint while_free (stmt : Statement) : bool :=
  match stmt with
  | SLet _ _ | SSet _ _ | SReturn _ | SUnknown => true
  | SIf _ then_ else_ =>
      match then_ with Some block => forallb while_free block | None => true end
      && match else_ with Some block => forallb while_free block | None => true end
  | SFor _ _ do_ =>
      match do_ with Some block => forallb while_free block | None => true end
  | SWhile _ _ => false
  end.

(** The nesting depth of a statement, its expressions included. *)
Fixpoint depth (stmt : Statement) : nat :=
  match stmt with
  | SLet _ value | SSet _ value | SReturn value => S (height value)
  | SIf cond then_ else_ =>
      S (height cond
         `max` (match then_ with
                | Some block => fold_right (fun s n => S (depth s) `max` n) 0 block
                | None => 0
                end
                `max` match else_ with
                      | Some block => fold_right (fun s n => S (depth s) `max` n) 0 block
                      | None => 0
                      end))
  | SFor _ in_ do_ | SWhile in_ do_ =>
      S (height in_
         `max` match do_ with
               | Some block => fold_right (fun s n => S (depth s) `max` n) 0 block
               | None => 0
               end)
  | SUnknown => 0
  end.

Definition block_depth (statements : list Statement) : nat :=
  fold_right (fun s n => S (depth s) `max` n) 0 statements.


(** A computation that ends with a value or an exception. *)
Definition ends {A} (c : M A) : Prop := forall m, (c m).1 <> OutOfFuel.

(** [object.p1.p2. ... .pn] *)
Definition member_chain (object : Expression) (properties : list string) : Expression :=
  fold_left EMember properties object.

(** A definition that passes every check of [validateFunction]. *)
Definition well_formed (def : FunctionDef) : Prop :=
  fd_type def = "FUNCTION"
  /\ exists config params body,
       fd_config def = Some config
       /\ fc_params config = IsArray params
       /\ fc_body config = IsArray body.

(** A compiler whose stored definitions all went through [validateFunction]. *)
Definition validated (c : JsonDslCompiler) : Prop :=
  forall name def, functionDefs c !! name = Some def -> well_formed def.

(** On every machine, [c_dist] and [c_src] do the same, or else [c_dist]
    throws [LoopLimitExceeded]. *)
Definition same_unless_capped {A} (c_dist c_src : M A) : Prop :=
  forall m, c_dist m = c_src m \/ exists m', c_dist m = (Throw LoopLimitExceeded, m').

(** Every closure cached in [m] is cached, unchanged, in [m']. *)
Definition cache_grows (m m' : Machine) : Prop :=
  forall name compiledFn,
    compiledFunctions (compiler m) !! name = Some compiledFn ->
    compiledFunctions (compiler m') !! name = Some compiledFn.

(** A computation that removes and replaces no cached closure, however it
    ends. *)
Definition keeps_cache {A} (c : M A) : Prop := forall m, cache_grows m (c m).2.

(** The names bound in [scope] are bound in [scope']. *)
Definition bindings_kept (scope scope' : Scope) : Prop :=
  forall name, is_Some (scope !! name) -> is_Some (scope' !! name).

(** A hook that writes its arguments to the console. *)
Definition logging_onCall : string -> list value -> Host unit :=
  fun fnName args w =>
    (Ok tt, {| console := console w ++ [VStr "onCall" :: VStr fnName :: args];
               draws := draws w |}).

Definition logging_onReturn : string -> value -> Host unit :=
  fun fnName result w =>
    (Ok tt, {| console := console w ++ [[VStr "onReturn"; VStr fnName; result]];
               draws := draws w |}).

(** Whenever [c] ends with a scope, the names bound in [scope] are bound in
    that scope. *)
Definition keeps_bindings {A} (scope : Scope) (c : M (A * Scope)) : Prop :=
  forall m a scope' m', c m = (Ok (a, scope'), m') -> bindings_kept scope scope'.

(** The closure [compile] builds for [function params body result] under a
    context of variables only. *)
Definition closure (fnName : string) (params : list string) (body : list Statement)
    (result : Expression) (variables : list (string * value)) : CompiledFunction := {|
  cf_fnName := fnName;
  cf_def := function params body result;
  cf_params := params;
  cf_context := Some (variables_only variables);
|}.

(** Two machines that differ in the loaded definitions at most. *)
Definition same_outside_definitions (m m' : Machine) : Prop :=
  compiledFunctions (compiler m') = compiledFunctions (compiler m)
  /\ builtins (compiler m') = builtins (compiler m)
  /\ allowedMethods (compiler m') = allowedMethods (compiler m)
  /\ debugMode (compiler m') = debugMode (compiler m)
  /\ world m' = world m.

(** Two machines that differ in the cache of compiled functions at most. *)
Definition same_outside_cache (m m' : Machine) : Prop :=
  functionDefs (compiler m') = functionDefs (compiler m)
  /\ builtins (compiler m') = builtins (compiler m)
  /\ allowedMethods (compiler m') = allowedMethods (compiler m)
  /\ debugMode (compiler m') = debugMode (compiler m)
  /\ world m' = world m.

(** A document with the given entries. *)
Definition document (entries : list (string * FunctionDef)) : option DslConfig :=
  Some {| functions := Some entries |}.

(** ** The remaining methods of the compiler *)





(** [FunctionInfo] of [types.ts] *)
Record FunctionInfo : Type := {
  fi_name : string;
  fi_description : string;
  fi_params : list string;
}.

(** The entry [listFunctions] pushes for one definition. *)
Definition function_info (name : string) (def : FunctionDef) : Outcome FunctionInfo :=
  match fd_config def with
  | None => Throw (HostError "TypeError")
  | Some config =>
      let description := default EmptyString (fc_description config) in
      match normalizeParams (fc_params config) with
      | Ok params =>
          Ok {| fi_name := name; fi_description := description; fi_params := params |}
      | Throw e => Throw e
      | OutOfFuel => OutOfFuel
      end
  end.

(** [listFunctions()].  The loop visits the entries of [functionDefs] in
    the order of their insertion; they are passed in that order. *)
Definition listFunctions (entries : list (string * FunctionDef)) : M (list FunctionInfo) :=
  mapM (fun e => lift (function_info e.1 e.2)) entries.

(** [entries] are entries of the definitions stored in [m]. *)
Definition stored_in (m : Machine) (entries : list (string * FunctionDef)) : Prop :=
  forall name def, (name, def) ∈ entries -> functionDefs (compiler m) !! name = Some def.

(** ** Inputs of the further examples *)

(** The entries of the sample document. *)
Definition sample_entries : list (string * FunctionDef) := [
  ("add", add_def); ("sumArray", sumArray_def);
  ("calculatePrice", calculatePrice_def); ("factorial", factorial_def) ].

(** [add] compiled without a context. *)
Definition add_closure : CompiledFunction := {|
  cf_fnName := "add"; cf_def := add_def; cf_params := ["a"; "b"]; cf_context := None;
|}.

(** The machine after [load(sample); compile('add')]. *)
Definition after_compiling_add `{JsHost} : Machine :=
  ((let* _ := load sample_config in compile "add" None) start).2.



(** A context with the two logging hooks, and one whose [onCall] refuses. *)
Definition logging_context : ExecutionContext := {|
  ctx_variables := None;
  ctx_functions := None;
  ctx_builtins := None;
  ctx_onCall := Some logging_onCall;
  ctx_onReturn := Some logging_onReturn;
|}.

Definition refusing_context : ExecutionContext := {|
  ctx_variables := None;
  ctx_functions := None;
  ctx_builtins := None;
  ctx_onCall := Some (fun _ _ w => (Throw (HostError "refused"), w));
  ctx_onReturn := None;
|}.

(** The starting machine with the given console. *)
Definition with_console `{JsHost} (lines : list (list value)) : Machine := {|
  compiler := constructor;
  world := {| console := lines; draws := 0 |};
|}.






(** * Properties *)

(** ** The evaluation monad *)

(** One step of [bind] once the first computation is known. *)
Lemma bind_ok {A B} (c : M A) (k : A -> M B) m a m' :
  c m = (Ok a, m') -> bind c k m = k a m'.
Proof. intros H. unfold bind. now rewrite H. Qed.

Lemma bind_throw {A B} (c : M A) (k : A -> M B) m e m' :
  c m = (Throw e, m') -> bind c k m = (Throw e, m').
Proof. intros H. unfold bind. now rewrite H. Qed.

Lemma bind_assoc {A B C} (c : M A) (k : A -> M B) (k' : B -> M C) m :
  bind (bind c k) k' m = bind c (fun a => bind (k a) k') m.
Proof. unfold bind. destruct (c m) as [[a | e |] m1]; reflexivity. Qed.

(** ** What evaluation leaves unchanged *)

Lemma same_registry_refl c : same_registry c c.
Proof. repeat split. Qed.

Lemma same_registry_trans c1 c2 c3 :
  same_registry c1 c2 -> same_registry c2 c3 -> same_registry c1 c3.
Proof.
  intros (H1 & H2 & H3) (H4 & H5 & H6).
  repeat split; congruence.
Qed.

Create HintDb registry.

Lemma keeps_ret {A} (a : A) : keeps_registry (ret a).
Proof. intros m. apply same_registry_refl. Qed.

Lemma keeps_throw {A} e : keeps_registry (@throw A e).
Proof. intros m. apply same_registry_refl. Qed.

Lemma keeps_timeout {A} : keeps_registry (@timeout A).
Proof. intros m. apply same_registry_refl. Qed.

Lemma keeps_lift {A} (r : Outcome A) : keeps_registry (lift r).
Proof. intros m. apply same_registry_refl. Qed.

Lemma keeps_this : keeps_registry this.
Proof. intros m. apply same_registry_refl. Qed.

Lemma keeps_host {A} (h : Host A) : keeps_registry (host h).
Proof. intros m. unfold host. destruct (h (world m)). apply same_registry_refl. Qed.

Lemma keeps_bind {A B} (c : M A) (k : A -> M B) :
  keeps_registry c -> (forall a, keeps_registry (k a)) -> keeps_registry (bind c k).
Proof.
  intros Hc Hk m. unfold bind. specialize (Hc m).
  destruct (c m) as [[a | e |] m1]; simpl in *; try exact Hc.
  eapply same_registry_trans; [exact Hc | apply Hk].
Qed.

Lemma keeps_set_compiledFunctions f : keeps_registry (set_compiledFunctions f).
Proof. intros m. repeat split. Qed.

Lemma keeps_log_line line : keeps_registry (log_line line).
Proof. apply keeps_bind; [apply keeps_host | intros; apply keeps_ret]. Qed.

#[local] Hint Resolve keeps_ret keeps_throw keeps_timeout keeps_lift keeps_this
  keeps_host keeps_set_compiledFunctions keeps_log_line : registry.

Lemma keeps_mapM {A B} (f : A -> M B) (l : list A) :
  (forall a, keeps_registry (f a)) -> keeps_registry (mapM f l).
Proof.
  intros Hf. induction l as [| a l IH]; simpl; [apply keeps_ret |].
  apply keeps_bind; [apply Hf | intros b].
  apply keeps_bind; [exact IH | intros; apply keeps_ret].
Qed.

Lemma keeps_loop {A} (body : A -> Scope -> M (option value * Scope)) items scope :
  (forall item scope, keeps_registry (body item scope)) ->
  keeps_registry (loop body items scope).
Proof.
  intros Hbody. revert scope.
  induction items as [| item rest IH]; intros scope; simpl; [apply keeps_ret |].
  apply keeps_bind; [apply Hbody | intros [[v |] scope']]; [apply keeps_ret | apply IH].
Qed.

(** Break a computation into its combinators. *)
Ltac keeps_step :=
  match goal with
  | |- keeps_registry (bind _ _) => apply keeps_bind; [| intros ?]
  | |- keeps_registry (mapM _ _) => apply keeps_mapM; intros ?
  | |- keeps_registry (loop _ _ _) => apply keeps_loop; intros ? ?
  | |- keeps_registry (match ?x with _ => _ end) => destruct x
  | |- keeps_registry _ => solve [auto with registry]
  end.

Section Frame.

Context {JS : JsHost}.
Variable build : Artifact.

Lemma keeps_compile fnName context : keeps_registry (compile fnName context).
Proof. unfold compile. repeat keeps_step. Qed.

(** The evaluator writes to the cache of compiled functions and to the host
    world only. *)
Lemma evaluation_keeps_registry (fuel : nat) :
  (forall expr scope context, keeps_registry (evalExpr build fuel expr scope context))
  /\ (forall stmt scope context, keeps_registry (executeStmt build fuel stmt scope context))
  /\ (forall iterations cond do_ scope context,
         keeps_registry (whileLoop build fuel iterations cond do_ scope context))
  /\ (forall statements scope context,
         keeps_registry (executeBlock build fuel statements scope context))
  /\ (forall compiledFn args, keeps_registry (invoke build fuel compiledFn args)).
Proof.
  induction fuel as [| fuel (IHe & IHs & IHw & IHb & IHi)].
  - repeat split; intros; apply keeps_timeout.
  - pose proof keeps_compile as Hc.
    split; [| split; [| split; [| split]]].
    + intros expr scope context. destruct expr; simpl; repeat keeps_step.
    + intros stmt scope context. destruct stmt; simpl; repeat keeps_step.
    + intros iterations cond do_ scope context. simpl. repeat keeps_step.
    + intros statements scope context. simpl. repeat keeps_step.
    + intros compiledFn args. simpl. repeat keeps_step.
Qed.

Lemma evalExpr_keeps_registry fuel expr scope context m :
  same_registry (compiler m) (compiler (evalExpr build fuel expr scope context m).2).
Proof. apply (evaluation_keeps_registry fuel). Qed.


End Frame.

(** ** More fuel changes no answer *)

Lemma extends_refl {A} (c : M A) : extends c c.
Proof. intros m r m' H _. exact H. Qed.

Lemma extends_timeout {A} (c : M A) : extends timeout c.
Proof. intros m r m' [= <- <-] H. now contradiction H. Qed.

Lemma extends_bind {A B} (c c' : M A) (k k' : A -> M B) :
  extends c c' -> (forall a, extends (k a) (k' a)) -> extends (bind c k) (bind c' k').
Proof.
  intros Hc Hk m r m' Hrun Hr. unfold bind in *.
  destruct (c m) as [[a | e |] m1] eqn:Hcm.
  - rewrite (Hc m (Ok a) m1 Hcm) by discriminate. now apply Hk.
  - rewrite (Hc m (Throw e) m1 Hcm) by discriminate. exact Hrun.
  - injection Hrun as <- <-. now contradiction Hr.
Qed.

Lemma extends_mapM {A B} (f f' : A -> M B) (l : list A) :
  (forall a, extends (f a) (f' a)) -> extends (mapM f l) (mapM f' l).
Proof.
  intros Hf. induction l as [| a l IH]; simpl; [apply extends_refl |].
  apply extends_bind; [apply Hf | intros b].
  apply extends_bind; [exact IH | intros; apply extends_refl].
Qed.

Lemma extends_loop {A} (body body' : A -> Scope -> M (option value * Scope)) items scope :
  (forall item scope, extends (body item scope) (body' item scope)) ->
  extends (loop body items scope) (loop body' items scope).
Proof.
  intros Hbody. revert scope.
  induction items as [| item rest IH]; intros scope; simpl; [apply extends_refl |].
  apply extends_bind; [apply Hbody | intros [[v |] scope']];
    [apply extends_refl | apply IH].
Qed.

(** Compare two computations of the same shape, combinator by combinator. *)
Ltac extends_step :=
  match goal with
  | |- extends ?c ?c => apply extends_refl
  | |- extends (bind _ _) (bind _ _) => apply extends_bind; [| intros ?]
  | |- extends (mapM _ _) (mapM _ _) => apply extends_mapM; intros ?
  | |- extends (loop _ _ _) (loop _ _ _) => apply extends_loop; intros ? ?
  | |- extends (match ?x with _ => _ end) (match ?x with _ => _ end) => destruct x
  | |- extends _ _ => solve [auto]
  end.

Section Fuel.

Context {JS : JsHost}.
Variable build : Artifact.

(** An evaluation that ends with a value or an exception ends the same way,
    on the same machine, with any larger amount of fuel. *)
Lemma more_fuel (fuel : nat) : forall fuel', fuel <= fuel' ->
  (forall expr scope context,
      extends (evalExpr build fuel expr scope context)
              (evalExpr build fuel' expr scope context))
  /\ (forall stmt scope context,
         extends (executeStmt build fuel stmt scope context)
                 (executeStmt build fuel' stmt scope context))
  /\ (forall iterations cond do_ scope context,
         extends (whileLoop build fuel iterations cond do_ scope context)
                 (whileLoop build fuel' iterations cond do_ scope context))
  /\ (forall statements scope context,
         extends (executeBlock build fuel statements scope context)
                 (executeBlock build fuel' statements scope context))
  /\ (forall compiledFn args,
         extends (invoke build fuel compiledFn args)
                 (invoke build fuel' compiledFn args)).
Proof.
  induction fuel as [| fuel IH]; intros fuel' Hle.
  - repeat split; intros; apply extends_timeout.
  - destruct fuel' as [| fuel']; [lia |].
    destruct (IH fuel' ltac:(lia)) as (IHe & IHs & IHw & IHb & IHi).
    split; [| split; [| split; [| split]]].
    + intros expr scope context. destruct expr; simpl; repeat extends_step.
    + intros stmt scope context. destruct stmt; simpl; repeat extends_step.
    + intros iterations cond do_ scope context. simpl. repeat extends_step.
    + intros statements scope context. simpl. repeat extends_step.
    + intros compiledFn args. simpl. repeat extends_step.
Qed.

Lemma evalExpr_more_fuel fuel fuel' expr scope context m a m' :
  fuel <= fuel' ->
  evalExpr build fuel expr scope context m = (Ok a, m') ->
  evalExpr build fuel' expr scope context m = (Ok a, m').
Proof.
  intros Hle H. destruct (more_fuel fuel fuel' Hle) as (He & _).
  now apply (He expr scope context m).
Qed.

Lemma executeBlock_more_fuel fuel fuel' statements scope context m a m' :
  fuel <= fuel' ->
  executeBlock build fuel statements scope context m = (Ok a, m') ->
  executeBlock build fuel' statements scope context m = (Ok a, m').
Proof.
  intros Hle H. destruct (more_fuel fuel fuel' Hle) as (_ & _ & _ & Hb & _).
  now apply (Hb statements scope context m).
Qed.

End Fuel.

(** ** Properties of the expression evaluator *)

Section ExpressionProperties.

Context {JS : JsHost}.
Variable build : Artifact.

(** The equations of [evalExpr] for the nodes studied below. *)
Lemma evalExpr_binary fuel operator e_left e_right scope context :
  evalExpr build (S fuel) (EBinary operator e_left e_right) scope context
  = (let* l := evalExpr build fuel e_left scope context in
     let* r := evalExpr build fuel e_right scope context in
     lift (evalBinaryOp operator l r)).
Proof. reflexivity. Qed.

Lemma evalExpr_method fuel methodName object arguments scope context :
  evalExpr build (S fuel) (EMethod methodName object arguments) scope context
  = (let* obj := evalExpr build fuel object scope context in
     let* self := this in
     if negb (bool_decide (methodName ∈ allowedMethods self)) then
       throw (MethodNotAllowed methodName)
     else if nullish obj then
       throw (NullReceiver methodName)
     else
       let method := js_get obj (VStr methodName) in
       if negb (is_function method) then ret method
       else
         let* args := mapM (fun a => evalExpr build fuel a scope context)
                           (default [] arguments) in
         host (js_apply method obj args)).
Proof. reflexivity. Qed.


(** A reference to a name bound in the scope reads the scope. *)
Lemma evalExpr_ref_bound fuel ref scope context m v :
  scope !! ref = Some v ->
  evalExpr build (S fuel) (ERef ref) scope context m = (Ok v, m).
Proof. intros H. simpl. now rewrite H. Qed.

(** The whitelist a receiver expression leaves behind is the one it found. *)
Lemma receiver_keeps_whitelist fuel object scope context m obj m1 :
  evalExpr build fuel object scope context m = (Ok obj, m1) ->
  allowedMethods (compiler m1) = allowedMethods (compiler m).
Proof.
  intros Hobj.
  destruct (evalExpr_keeps_registry build fuel object scope context m) as (_ & _ & H).
  now rewrite Hobj in H.
Qed.

(** C9: a bare number or boolean evaluates to the value of the equivalent
    literal node, and a bare string evaluates exactly as the reference
    node of that name does: both give the same value, or both raise
    [UndefinedVariable] for that name, and neither changes the machine. *)
Theorem shorthand_agrees_with_node (fuel : nat) (scope : Scope)
    (context : option ExecutionContext) (m : Machine) :
  (forall x,
      evalExpr build fuel (ENumber x) scope context m
      = evalExpr build fuel (ELiteral (LitNumber x)) scope context m
      /\ evalExpr build (S fuel) (ENumber x) scope context m = (Ok (VNum x), m))
  /\ (forall b,
      evalExpr build fuel (EBoolean b) scope context m
      = evalExpr build fuel (ELiteral (LitBoolean b)) scope context m
      /\ evalExpr build (S fuel) (EBoolean b) scope context m = (Ok (VBool b), m))
  /\ (forall s,
      evalExpr build fuel (EString s) scope context m
      = evalExpr build fuel (ERef s) scope context m
      /\ ((exists v, evalExpr build (S fuel) (ERef s) scope context m = (Ok v, m))
          \/ evalExpr build (S fuel) (ERef s) scope context m
             = (Throw (UndefinedVariable s), m))).
Proof.
  repeat split.
  - destruct fuel; reflexivity.
  - destruct fuel; reflexivity.
  - destruct fuel; reflexivity.
  - simpl. destruct (scope !! s) as [v |]; [left; now exists v |].
    destruct (entry (context ≫= ctx_builtins) s); [left; eexists; reflexivity |].
    unfold bind, this.
    destruct (builtins (compiler m) !! s); [left; eexists; reflexivity |].
    now right.
Qed.

(** C1 (amended): for [&&] and [||] the right operand is evaluated after the
    left one whatever the left value is.  When it yields a value, the
    machine is the one the right operand leaves behind and only the
    resulting value follows the short-circuit rule; when it throws, the
    whole expression throws, even if the left value already decides. *)
Theorem logical_operators_evaluate_both_operands (fuel : nat)
    (operator : BinaryOperator) (e_left e_right : Expression) (scope : Scope)
    (context : option ExecutionContext) (m m1 : Machine) (l : value) :
  operator = OpAnd \/ operator = OpOr ->
  evalExpr build fuel e_left scope context m = (Ok l, m1) ->
  (forall r m2,
      evalExpr build fuel e_right scope context m1 = (Ok r, m2) ->
      evalExpr build (S fuel) (EBinary operator e_left e_right) scope context m
      = (Ok (logical_value operator l r), m2))
  /\ (forall e m2,
      evalExpr build fuel e_right scope context m1 = (Throw e, m2) ->
      evalExpr build (S fuel) (EBinary operator e_left e_right) scope context m
      = (Throw e, m2)).
Proof.
  intros Hop Hl. split.
  - intros r m2 Hr.
    rewrite evalExpr_binary, (bind_ok _ _ _ _ _ Hl), (bind_ok _ _ _ _ _ Hr).
    destruct Hop as [-> | ->]; reflexivity.
  - intros e m2 Hr.
    rewrite evalExpr_binary, (bind_ok _ _ _ _ _ Hl). now apply bind_throw.
Qed.

(** C3 (amended): a call of a whitelisted method on a receiver that
    evaluates to [null] or [undefined] raises [NullReceiver]. *)
Theorem whitelisted_method_on_null_receiver (fuel : nat) (methodName : string)
    (object : Expression) (arguments : option (list Expression)) (scope : Scope)
    (context : option ExecutionContext) (m m1 : Machine) (obj : value) :
  methodName ∈ allowedMethods (compiler m) ->
  evalExpr build fuel object scope context m = (Ok obj, m1) ->
  obj = VNull \/ obj = VUndefined ->
  evalExpr build (S fuel) (EMethod methodName object arguments) scope context m
  = (Throw (NullReceiver methodName), m1).
Proof.
  intros Hin Hobj Hnull.
  rewrite <- (receiver_keeps_whitelist _ _ _ _ _ _ _ Hobj) in Hin.
  rewrite evalExpr_method, (bind_ok _ _ _ _ _ Hobj). unfold bind, this.
  rewrite bool_decide_eq_true_2 by exact Hin.
  destruct Hnull as [-> | ->]; reflexivity.
Qed.

(** C4: a call of a method whose name is outside the whitelist raises
    [MethodNotAllowed] whatever value the receiver evaluates to. *)
Theorem method_outside_whitelist_is_rejected (fuel : nat) (methodName : string)
    (object : Expression) (arguments : option (list Expression)) (scope : Scope)
    (context : option ExecutionContext) (m m1 : Machine) (obj : value) :
  methodName ∉ allowedMethods (compiler m) ->
  evalExpr build fuel object scope context m = (Ok obj, m1) ->
  evalExpr build (S fuel) (EMethod methodName object arguments) scope context m
  = (Throw (MethodNotAllowed methodName), m1).
Proof.
  intros Hout Hobj.
  rewrite <- (receiver_keeps_whitelist _ _ _ _ _ _ _ Hobj) in Hout.
  rewrite evalExpr_method, (bind_ok _ _ _ _ _ Hobj). unfold bind, this.
  now rewrite bool_decide_eq_false_2 by exact Hout.
Qed.

(** C5: [l / r] is the number 0 whenever [r] is the number zero, of either
    sign, for every left value [l]; and so is a [/] expression whose right
    operand evaluates to zero. *)
Theorem division_by_zero_yields_zero (fuel : nat) (e_left e_right : Expression)
    (scope : Scope) (context : option ExecutionContext) (m m1 m2 : Machine)
    (l : value) (z : float) :
  z = zero \/ z = neg_zero ->
  evalExpr build fuel e_left scope context m = (Ok l, m1) ->
  evalExpr build fuel e_right scope context m1 = (Ok (VNum z), m2) ->
  evalBinaryOp OpDiv l (VNum z) = Ok (VNum zero)
  /\ evalExpr build (S fuel) (EBinary OpDiv e_left e_right) scope context m
     = (Ok (VNum zero), m2).
Proof.
  intros Hz Hl Hr.
  assert (Hop : evalBinaryOp OpDiv l (VNum z) = Ok (VNum zero)).
  { destruct Hz as [-> | ->]; reflexivity. }
  split; [exact Hop |].
  rewrite evalExpr_binary, (bind_ok _ _ _ _ _ Hl), (bind_ok _ _ _ _ _ Hr).
  unfold lift. now rewrite Hop.
Qed.


End ExpressionProperties.

(** ** Properties of the statement executor *)

Section StatementProperties.

Context {JS : JsHost}.
Variable build : Artifact.

(** The equations of the executor. *)
Lemma executeBlock_eq fuel statements scope context :
  executeBlock build (S fuel) statements scope context
  = loop (fun stmt scope => executeStmt build fuel stmt scope context) statements scope.
Proof. reflexivity. Qed.

Lemma executeStmt_let fuel name e scope context :
  executeStmt build (S fuel) (SLet name e) scope context
  = (let* v := evalExpr build fuel e scope context in
     ret (None, <[name := v]> scope)).
Proof. reflexivity. Qed.

Lemma executeStmt_set fuel name e scope context :
  executeStmt build (S fuel) (SSet name e) scope context
  = match scope !! name with
    | None => throw (UnboundAssignment name)
    | Some _ =>
        let* v := evalExpr build fuel e scope context in
        ret (None, <[name := v]> scope)
    end.
Proof. reflexivity. Qed.

Lemma executeStmt_if fuel cond then_ else_ scope context :
  executeStmt build (S fuel) (SIf cond then_ else_) scope context
  = (let* c := evalExpr build fuel cond scope context in
     if truthy c then executeBlock build fuel (default [] then_) scope context
     else match else_ with
          | Some else_ => executeBlock build fuel else_ scope context
          | None => ret (None, scope)
          end).
Proof. reflexivity. Qed.

Lemma executeStmt_for fuel item in_ do_ scope context :
  executeStmt build (S fuel) (SFor item in_ do_) scope context
  = (let* iterable := evalExpr build fuel in_ scope context in
     match iterable_items iterable with
     | None => throw NotIterable
     | Some items =>
         loop (fun value scope =>
                 executeBlock build fuel (default [] do_) (<[item := value]> scope) context)
              items scope
     end).
Proof. reflexivity. Qed.

Lemma executeStmt_while fuel cond do_ scope context :
  executeStmt build (S fuel) (SWhile cond do_) scope context
  = whileLoop build fuel 0%N cond do_ scope context.
Proof. reflexivity. Qed.

Lemma whileLoop_eq fuel iterations cond do_ scope context :
  whileLoop build (S fuel) iterations cond do_ scope context
  = (let* guard := evalExpr build fuel cond scope context in
     if truthy guard then
       if over_limit build (iterations + 1) then throw LoopLimitExceeded
       else
         let* (result, scope) := executeBlock build fuel (default [] do_) scope context in
         match result with
         | Some v => ret (Some v, scope)
         | None => whileLoop build fuel (iterations + 1) cond do_ scope context
         end
     else ret (None, scope)).
Proof. reflexivity. Qed.

Lemma invoke_eq fuel compiledFn args :
  invoke build (S fuel) compiledFn args
  = (let fnName := cf_fnName compiledFn in
     let context := cf_context compiledFn in
     let scope : Scope := ∅ in
     let scope :=
       match context ≫= ctx_variables with
       | Some variables => seed_variables variables scope
       | None => scope
       end in
     let scope := bind_params (cf_params compiledFn) 0 args scope in
     let* _ :=
       match context ≫= ctx_onCall with
       | Some onCall => host (onCall fnName args)
       | None => ret tt
       end in
     match fd_config (cf_def compiledFn) with
     | None => throw (HostError "TypeError")
     | Some config =>
         let* _ :=
           if fc_debug config
           then log_line [VStr ("[DEBUG] " ++ fnName ++ " called with:"); VArr args]
           else ret tt in
         match fc_body config with
         | Absent | NotAnArray => throw (HostError "TypeError")
         | IsArray body =>
             let* (result, scope) := executeBlock build fuel body scope context in
             let* returnValue :=
               match result with
               | Some v => ret v
               | None =>
                   if slot_present (fc_return config)
                   then evalExpr build fuel (fc_return config) scope context
                   else ret VUndefined
               end in
             let* _ :=
               if fc_debug config
               then log_line [VStr ("[DEBUG] " ++ fnName ++ " returned:"); returnValue]
               else ret tt in
             let* _ :=
               match context ≫= ctx_onReturn with
               | Some onReturn => host (onReturn fnName returnValue)
               | None => ret tt
               end in
             ret returnValue
         end
     end).
Proof. reflexivity. Qed.







End StatementProperties.

(** ** The iteration cap of the pre-condition loop *)

Section LoopLimit.

Context {JS : JsHost}.

Lemma out_of_fuel_or_not {A} (r : Outcome A) : r = OutOfFuel \/ r <> OutOfFuel.
Proof. destruct r; [right | right | left]; congruence. Qed.

(** An answer obtained with some fuel is the answer obtained with any other
    fuel that is enough. *)
Lemma answers_agree {A} (run : nat -> M A) fuel fuel0 m r m' a m0 :
  (forall f f', f <= f' -> extends (run f) (run f')) ->
  run fuel m = (r, m') -> r <> OutOfFuel ->
  run fuel0 m = (Ok a, m0) ->
  (r, m') = (Ok a, m0).
Proof.
  intros Hmono Hrun Hr Hrun0.
  pose proof (Hmono fuel (Nat.max fuel fuel0) ltac:(lia) m r m' Hrun Hr) as H1.
  pose proof (Hmono fuel0 (Nat.max fuel fuel0) ltac:(lia) m (Ok a) m0 Hrun0
                ltac:(discriminate)) as H2.
  congruence.
Qed.

(** The source-level compiler.  A loop whose guard never becomes falsy is
    still running when the fuel ends, whatever the fuel: it neither returns
    nor throws. *)
Lemma source_loop_never_ends cond do_ context (I : Scope -> Machine -> Prop) :
  guard_never_falsy SourceTs cond do_ context I ->
  forall fuel iterations scope m,
    I scope m ->
    (whileLoop SourceTs fuel iterations cond do_ scope context m).1 = OutOfFuel.
Proof.
  intros Hloop fuel.
  induction fuel as [| fuel IH]; intros iterations scope m HI; [reflexivity |].
  destruct (Hloop scope m HI) as (fuel0 & guard & m1 & scope' & m2 & Hg & Htrue & Hbody & HI').
  rewrite whileLoop_eq. unfold bind at 1.
  destruct (evalExpr SourceTs fuel cond scope context m) as [r mr] eqn:Hrun.
  destruct (out_of_fuel_or_not r) as [-> | Hr]; [reflexivity |].
  assert (Heq : (r, mr) = (Ok guard, m1)).
  { apply (answers_agree (fun f => evalExpr SourceTs f cond scope context)
             fuel fuel0 m r mr guard m1); [| exact Hrun | exact Hr | exact Hg].
    intros f f' Hle. apply (more_fuel SourceTs f f' Hle). }
  injection Heq as -> ->. rewrite Htrue.
  cbn [over_limit maxIterations]. unfold bind at 1.
  destruct (executeBlock SourceTs fuel (default [] do_) scope context m1)
    as [r2 mr2] eqn:Hrun2.
  destruct (out_of_fuel_or_not r2) as [-> | Hr2]; [reflexivity |].
  assert (Heq : (r2, mr2) = (Ok (None, scope'), m2)).
  { apply (answers_agree (fun f => executeBlock SourceTs f (default [] do_) scope context)
             fuel fuel0 m1 r2 mr2 (None, scope') m2);
      [| exact Hrun2 | exact Hr2 | exact Hbody].
    intros f f' Hle. apply (more_fuel SourceTs f f' Hle). }
  injection Heq as -> ->. now apply IH.
Qed.

Lemma source_while_never_terminates cond do_ context (I : Scope -> Machine -> Prop) :
  guard_never_falsy SourceTs cond do_ context I ->
  forall fuel scope m,
    I scope m ->
    (executeStmt SourceTs fuel (SWhile cond do_) scope context m).1 = OutOfFuel.
Proof.
  intros Hloop [| fuel] scope m HI; [reflexivity |].
  rewrite executeStmt_while. now apply (source_loop_never_ends cond do_ context I).
Qed.

(** The guard [true] over an empty body never becomes falsy. *)
Lemma while_true_guard build context :
  guard_never_falsy build (EBoolean true) (Some []) context (fun _ _ => True).
Proof.
  intros scope m _. exists 1, (VBool true), m, scope, m.
  repeat split.
Qed.

(** C2 (the source-level compiler): [{ while: true, do: [] }] has no
    iteration counter to stop it.  Whatever fuel the evaluation is given it
    is still running when the fuel ends: the statement neither returns nor
    throws, [LoopLimitExceeded] is never raised, and the machine is as it
    was. *)
Theorem source_while_true_never_terminates (fuel : nat) (scope : Scope)
    (context : option ExecutionContext) (m : Machine) :
  executeStmt SourceTs fuel (SWhile (EBoolean true) (Some [])) scope context m
  = (OutOfFuel, m).
Proof.
  destruct fuel as [| fuel]; [reflexivity |].
  rewrite executeStmt_while. generalize 0%N as iterations.
  induction fuel as [| fuel IH]; intros iterations; [reflexivity |].
  rewrite whileLoop_eq. destruct fuel as [| fuel]; [reflexivity |].
  rewrite (bind_ok _ _ m (VBool true) m) by reflexivity.
  cbn [truthy over_limit maxIterations default from_option id].
  rewrite (bind_ok _ _ m (@None value, scope) m) by reflexivity.
  apply IH.
Qed.

(** The built artifact.  The counter stops a loop whose guard never becomes
    falsy: with enough fuel the statement throws [LoopLimitExceeded]. *)
Lemma dist_loop_counts cond do_ context (I : Scope -> Machine -> Prop) :
  guard_never_falsy DistJs cond do_ context I ->
  forall (k : nat) (iterations : N) scope m,
    (iterations + N.of_nat k = 100000)%N ->
    I scope m ->
    exists fuel m',
      whileLoop DistJs fuel iterations cond do_ scope context m
      = (Throw LoopLimitExceeded, m').
Proof.
  intros Hloop k.
  induction k as [| k IH]; intros iterations scope m Hcount HI;
    destruct (Hloop scope m HI)
      as (fuel0 & guard & m1 & scope' & m2 & Hg & Htrue & Hbody & HI').
  - exists (S fuel0), m1.
    rewrite whileLoop_eq, (bind_ok _ _ _ _ _ Hg), Htrue.
    cbn [over_limit maxIterations].
    replace (100000 <? iterations + 1)%N with true
      by (symmetry; apply N.ltb_lt; lia).
    reflexivity.
  - destruct (IH (iterations + 1)%N scope' m2 ltac:(lia) HI') as (fuel1 & m' & Hrest).
    exists (S (Nat.max fuel0 fuel1)), m'.
    rewrite whileLoop_eq.
    rewrite (bind_ok _ _ m guard m1)
      by (apply (evalExpr_more_fuel DistJs fuel0); [lia | exact Hg]).
    rewrite Htrue. cbn [over_limit maxIterations].
    replace (100000 <? iterations + 1)%N with false
      by (symmetry; apply N.ltb_ge; lia).
    rewrite (bind_ok _ _ m1 (None, scope') m2)
      by (apply (executeBlock_more_fuel DistJs fuel0); [lia | exact Hbody]).
    cbv beta iota.
    destruct (more_fuel DistJs fuel1 (Nat.max fuel0 fuel1) ltac:(lia))
      as (_ & _ & Hw & _).
    apply (Hw _ _ _ _ _ _ _ _ Hrest). discriminate.
Qed.

Lemma dist_while_hits_the_cap cond do_ context (I : Scope -> Machine -> Prop) :
  guard_never_falsy DistJs cond do_ context I ->
  forall scope m,
    I scope m ->
    exists fuel0 m',
      forall fuel, fuel0 <= fuel ->
        executeStmt DistJs fuel (SWhile cond do_) scope context m
        = (Throw LoopLimitExceeded, m').
Proof.
  intros Hloop scope m HI.
  pose proof (N2Nat.id 100000) as Hk.
  destruct (dist_loop_counts cond do_ context I Hloop (N.to_nat 100000) 0%N scope m
              ltac:(rewrite Hk; reflexivity) HI) as (fuel0 & m' & Hrun).
  exists (S fuel0), m'. intros fuel Hle.
  destruct (more_fuel DistJs (S fuel0) fuel Hle) as (_ & Hs & _).
  apply (Hs (SWhile cond do_) scope context m); [| discriminate].
  rewrite executeStmt_while. exact Hrun.
Qed.

Lemma dist_true_loop_counts (k : nat) :
  forall (iterations : N) (fuel : nat) scope context m,
    (iterations + N.of_nat k = 100000)%N ->
    k + 2 <= fuel ->
    whileLoop DistJs fuel iterations (EBoolean true) (Some []) scope context m
    = (Throw LoopLimitExceeded, m).
Proof.
  induction k as [| k IH]; intros iterations fuel scope context m Hcount Hfuel.
  - destruct fuel as [| [| fuel]]; [lia | lia |].
    rewrite whileLoop_eq.
    rewrite (bind_ok _ _ m (VBool true) m) by reflexivity.
    cbn [truthy over_limit maxIterations].
    replace (100000 <? iterations + 1)%N with true
      by (symmetry; apply N.ltb_lt; lia).
    reflexivity.
  - destruct fuel as [| [| fuel]]; [lia | lia |].
    rewrite whileLoop_eq.
    rewrite (bind_ok _ _ m (VBool true) m) by reflexivity.
    cbn [truthy over_limit maxIterations default from_option id].
    replace (100000 <? iterations + 1)%N with false
      by (symmetry; apply N.ltb_ge; lia).
    rewrite (bind_ok _ _ m (@None value, scope) m) by reflexivity.
    cbv beta iota. apply IH; lia.
Qed.

(** On [{ while: true, do: [] }] the built artifact raises
    [LoopLimitExceeded] at the 100001st test of the guard and leaves the
    machine as it was. *)
Lemma dist_while_true_hits_the_cap (fuel : nat) (scope : Scope)
    (context : option ExecutionContext) (m : Machine) :
  (100003 <= N.of_nat fuel)%N ->
  executeStmt DistJs fuel (SWhile (EBoolean true) (Some [])) scope context m
  = (Throw LoopLimitExceeded, m).
Proof.
  intros Hfuel.
  pose proof (N2Nat.id 100000) as Hk.
  generalize dependent (N.to_nat 100000). intros k Hk.
  destruct fuel as [| fuel]; [lia |].
  rewrite executeStmt_while.
  apply (dist_true_loop_counts k); lia.
Qed.

End LoopLimit.

(** ** Closures and their contexts *)

Section ClosureProperties.

Context {JS : JsHost}.
Variable build : Artifact.

(** Binding the parameters leaves every other name of the scope alone. *)
Lemma bind_params_other params i args (scope : Scope) x :
  x ∉ params -> bind_params params i args scope !! x = scope !! x.
Proof.
  revert i scope. induction params as [| param rest IH]; intros i scope Hx; [reflexivity |].
  simpl. rewrite IH by (intros Hin; apply Hx; now right).
  apply lookup_insert_ne. intros ->. apply Hx. now left.
Qed.

Lemma compile_loaded fnName context m def config params :
  functionDefs (compiler m) !! fnName = Some def ->
  fd_config def = Some config ->
  normalizeParams (fc_params config) = Ok params ->
  let fn := {| cf_fnName := fnName; cf_def := def; cf_params := params;
               cf_context := context |} in
  compile fnName context m
  = (Ok fn, (set_compiledFunctions (fun cache => <[fnName := fn]> cache) m).2).
Proof.
  intros Hdef Hconfig Hparams fn. unfold compile.
  unfold bind at 1. unfold this at 1. rewrite Hdef, Hconfig.
  unfold bind at 1. unfold lift at 1. rewrite Hparams. reflexivity.
Qed.

(** The closure of a function without debug flag, compiled with a context
    of variables only: it runs the body on the scope seeded from those
    variables and overwritten by the parameters, and, when the body gives no
    return signal, evaluates the trailing expression on the scope the body
    leaves. *)
Lemma invoke_runs_body fuel fnName params body result variables args m :
  let context := Some (variables_only variables) in
  let scope := bind_params params 0 args (seed_variables variables ∅) in
  invoke build (S fuel)
    {| cf_fnName := fnName; cf_def := function params body result;
       cf_params := params; cf_context := context |}
    args m
  = (let* (signal, scope) := executeBlock build fuel body scope context in
     match signal with
     | Some v => ret v
     | None =>
         if slot_present result then evalExpr build fuel result scope context
         else ret VUndefined
     end) m.
Proof.
  intros context scope. rewrite invoke_eq.
  cbv beta iota zeta delta [cf_fnName cf_def cf_params cf_context function
    fd_config fc_debug fc_body fc_return].
  change (context ≫= ctx_variables) with (Some variables).
  change (context ≫= ctx_onCall) with (@None (string -> list value -> Host unit)).
  change (context ≫= ctx_onReturn) with (@None (string -> value -> Host unit)).
  cbv beta iota. fold scope.
  rewrite (bind_ok _ _ m tt m) by reflexivity.
  rewrite (bind_ok _ _ m tt m) by reflexivity.
  unfold bind.
  destruct (executeBlock build fuel body scope context m)
    as [[[[v |] scope'] | e |] m1]; try reflexivity.
  destruct (slot_present result); [| reflexivity].
  destruct (evalExpr build fuel result scope' context m1)
    as [[v | e |] m2]; reflexivity.
Qed.

End ClosureProperties.

(** ** Loading definitions *)

Section LoadProperties.

Context {JS : JsHost}.

Lemma validateFunction_accepts name def :
  validateFunction name def = Ok tt -> fd_type def = "FUNCTION".
Proof.
  unfold validateFunction.
  destruct (String.eqb (fd_type def) "FUNCTION") eqn:Htag; [| discriminate].
  intros _. now apply String.eqb_eq.
Qed.

Lemma validateFunction_outcome name def :
  validateFunction name def = Ok tt
  \/ exists fault, validateFunction name def = Throw (InvalidDefinition name fault).
Proof.
  unfold validateFunction.
  destruct (negb (String.eqb (fd_type def) "FUNCTION")); [right; eauto |].
  destruct (fd_config def) as [config |]; [| right; eauto].
  destruct (fc_params config); [right; eauto | right; eauto |].
  destruct (fc_body config); [right; eauto | right; eauto | now left].
Qed.

Lemma load_entries_keeps_tags entries m :
  only_FUNCTION_definitions (compiler m) ->
  only_FUNCTION_definitions (compiler (load_entries entries m).2).
Proof.
  revert m. induction entries as [| [name def] rest IH]; intros m Hm; [exact Hm |].
  cbn [load_entries]. unfold bind at 1. unfold lift at 1.
  destruct (validateFunction name def) as [[] | e |] eqn:Hvalid; [| exact Hm | exact Hm].
  unfold bind at 1. cbn [set_functionDefs]. apply IH.
  intros name' def'. cbn [compiler functionDefs].
  destruct (decide (name = name')) as [<- | Hne].
  - rewrite lookup_insert_eq. intros [= <-].
    now apply (validateFunction_accepts name).
  - rewrite lookup_insert_ne by exact Hne. apply Hm.
Qed.

Lemma load_entries_rejects entries m name def :
  (name, def) ∈ entries ->
  fd_type def <> "FUNCTION" ->
  exists name' fault m',
    load_entries entries m = (Throw (InvalidDefinition name' fault), m').
Proof.
  intros Hin Htag. revert m.
  induction entries as [| [name0 def0] rest IH]; intros m.
  - now apply elem_of_nil in Hin.
  - cbn [load_entries]. unfold bind at 1. unfold lift at 1.
    destruct (validateFunction_outcome name0 def0) as [Hok | [fault Hfail]].
    + rewrite Hok. unfold bind at 1. cbn [set_functionDefs].
      apply elem_of_cons in Hin as [[= <- <-] | Hin].
      * apply validateFunction_accepts in Hok. contradiction.
      * apply (IH Hin).
    + rewrite Hfail. eauto.
Qed.

(** C10: load-time validation accepts the tag ["FUNCTION"] only, and the
    tag the type model declares is ["CALLBACK"].  A definition carrying the
    declared tag is rejected by [validateFunction]; [load] of a document
    that contains one fails with a validation error; and whatever [load],
    [compile] and the evaluator do, the definitions stored in the compiler
    are all tagged ["FUNCTION"]. *)
Theorem load_accepts_only_the_FUNCTION_tag :
  FunctionDef_declared_type = "CALLBACK"
  /\ (forall name def,
         fd_type def = FunctionDef_declared_type ->
         validateFunction name def = Throw (InvalidDefinition name TypeMustBeFUNCTION))
  /\ (forall entries m name def,
         (name, def) ∈ entries ->
         fd_type def = FunctionDef_declared_type ->
         exists name' fault m',
           load (Some {| functions := Some entries |}) m
           = (Throw (InvalidDefinition name' fault), m'))
  /\ only_FUNCTION_definitions constructor
  /\ (forall config m,
         only_FUNCTION_definitions (compiler m) ->
         only_FUNCTION_definitions (compiler (load config m).2))
  /\ (forall fnName context m,
         only_FUNCTION_definitions (compiler m) ->
         only_FUNCTION_definitions (compiler (compile fnName context m).2))
  /\ (forall build fuel compiledFn args m,
         only_FUNCTION_definitions (compiler m) ->
         only_FUNCTION_definitions (compiler (invoke build fuel compiledFn args m).2)).
Proof.
  split; [reflexivity |].
  split; [intros name def Htag; unfold validateFunction; now rewrite Htag |].
  split.
  { intros entries m name def Hin Htag. cbn [load mbind option_bind functions].
    apply (load_entries_rejects entries m name def Hin).
    rewrite Htag. discriminate. }
  split; [intros name def; cbn [constructor functionDefs]; now rewrite lookup_empty |].
  split.
  { intros [[[entries |]] |] m Hm; try exact Hm.
    now apply load_entries_keeps_tags. }
  split.
  { intros fnName context m Hm name def.
    destruct (keeps_compile fnName context m) as (-> & _). apply Hm. }
  intros build fuel compiledFn args m Hm name def.
  destruct (evaluation_keeps_registry build fuel) as (_ & _ & _ & _ & Hinvoke).
  destruct (Hinvoke compiledFn args m) as (-> & _). apply Hm.
Qed.

End LoadProperties.

(** * Further properties of the compiler *)

(** ** Inversion of the monad *)

Lemma bind_inv_ok {A B} (c : M A) (k : A -> M B) m b m' :
  bind c k m = (Ok b, m') ->
  exists a m1, c m = (Ok a, m1) /\ k a m1 = (Ok b, m').
Proof.
  unfold bind. destruct (c m) as [[a | e |] m1]; [eauto | discriminate | discriminate].
Qed.

Lemma mapM_length {A B} (f : A -> M B) (l : list A) m bs m' :
  mapM f l m = (Ok bs, m') -> length bs = length l.
Proof.
  revert m bs m'. induction l as [| a l IH]; intros m bs m' H.
  - injection H as <- _. reflexivity.
  - cbn [mapM] in H.
    apply bind_inv_ok in H as (b & m1 & _ & H).
    apply bind_inv_ok in H as (bs' & m2 & Hrest & H).
    injection H as <- _. simpl. f_equal. exact (IH _ _ _ Hrest).
Qed.

Lemma mapM_keys {A B} (f : string * A -> M (string * B)) (l : list (string * A)) m bs m' :
  (forall kv m0 kv' m1, f kv m0 = (Ok kv', m1) -> kv'.1 = kv.1) ->
  mapM f l m = (Ok bs, m') -> bs.*1 = l.*1.
Proof.
  intros Hf. revert m bs m'. induction l as [| a l IH]; intros m bs m' H.
  - injection H as <- _. reflexivity.
  - cbn [mapM] in H.
    apply bind_inv_ok in H as (b & m1 & Hhead & H).
    apply bind_inv_ok in H as (bs' & m2 & Hrest & H).
    injection H as <- _. simpl. f_equal; [exact (Hf _ _ _ _ Hhead) | exact (IH _ _ _ Hrest)].
Qed.

Lemma bind_ext {A B} (c : M A) (k k' : A -> M B) m :
  (forall a m1, k a m1 = k' a m1) -> bind c k m = bind c k' m.
Proof.
  intros H. unfold bind. destruct (c m) as [[a | e |] m1]; [apply H | reflexivity | reflexivity].
Qed.

Lemma loop_app {A} (body : A -> Scope -> M (option value * Scope)) l1 l2 scope m :
  loop body (l1 ++ l2) scope m
  = (let* (signal, scope) := loop body l1 scope in
     match signal with
     | Some v => ret (Some v, scope)
     | None => loop body l2 scope
     end) m.
Proof.
  revert scope m. induction l1 as [| a l1 IH]; intros scope m; [reflexivity |].
  cbn [app loop]. rewrite bind_assoc. apply bind_ext.
  intros [[v |] scope'] m1; [reflexivity | apply IH].
Qed.

(** ** Construction of arrays and objects *)

Section Construction.

Context {JS : JsHost}.
Variable build : Artifact.

(** X1: an array construction that yields a value yields an array with one
    value per element expression, and an object construction whose node has
    no key [__proto__] yields an object with the property names of the
    node, in the order of the node. *)
Theorem construction_keeps_the_shape (fuel : nat) (scope : Scope)
    (context : option ExecutionContext) (m m' : Machine) (v : value) :
  (forall elements,
      evalExpr build fuel (EArray elements) scope context m = (Ok v, m') ->
      exists values, v = VArr values /\ length values = length elements)
  /\ (forall properties,
      "__proto__" ∉ properties.*1 ->
      evalExpr build fuel (EObject properties) scope context m = (Ok v, m') ->
      exists fields, v = VObj fields /\ fields.*1 = properties.*1).
Proof.
  split.
  - intros elements H. destruct fuel as [| fuel]; [discriminate |].
    cbn [evalExpr] in H. apply bind_inv_ok in H as (values & m1 & Hmap & H).
    injection H as <- _. exists values. split; [reflexivity |].
    exact (mapM_length _ _ _ _ _ Hmap).
  - intros properties _ H. destruct fuel as [| fuel]; [discriminate |].
    cbn [evalExpr] in H. apply bind_inv_ok in H as (fields & m1 & Hmap & H).
    injection H as <- _. exists fields. split; [reflexivity |].
    apply (mapM_keys _ _ _ _ _) in Hmap; [exact Hmap |].
    intros kv m0 kv' m2 Hkv.
    apply bind_inv_ok in Hkv as (v0 & m3 & _ & Hkv). now injection Hkv as <- _.
Qed.

End Construction.

(** ** Expressions without calls *)



Lemma ends_bind {A B} (c : M A) (k : A -> M B) :
  ends c -> (forall a, ends (k a)) -> ends (bind c k).
Proof.
  intros Hc Hk m. unfold bind. specialize (Hc m).
  destruct (c m) as [[a | e |] m1]; simpl in *; [apply Hk | easy | easy].
Qed.

Lemma ends_mapM {A B} (f : A -> M B) (l : list A) :
  Forall (fun a => ends (f a)) l -> ends (mapM f l).
Proof.
  induction 1 as [| a l Ha _ IH]; simpl; [easy |].
  apply ends_bind; [exact Ha | intros b].
  apply ends_bind; [exact IH | easy].
Qed.

Lemma height_element {A} (f : A -> Expression) (l : list A) (a : A) :
  a ∈ l -> height (f a) <= fold_right (fun a n => height (f a) `max` n) 0 l.
Proof.
  induction 1 as [a l | a b l _ IH]; simpl; lia.
Qed.


Lemma ends_ret {A} (a : A) : ends (ret a).
Proof. easy. Qed.

Lemma ends_throw {A} e : ends (@throw A e).
Proof. easy. Qed.

Lemma ends_this : ends this.
Proof. easy. Qed.

Lemma ends_lift {A} (r : Outcome A) : r <> OutOfFuel -> ends (lift r).
Proof. intros H m. exact H. Qed.

Ltac ends_step :=
  match goal with
  | |- ends (bind _ _) => apply ends_bind; [| intros ?]
  | |- ends (ret _) => apply ends_ret
  | |- ends (throw _) => apply ends_throw
  | |- ends this => apply ends_this
  | |- ends (lift (evalBinaryOp ?op _ _)) => apply ends_lift; destruct op; discriminate
  | |- ends (lift (evalUnaryOp ?op _)) => apply ends_lift; destruct op; discriminate
  | |- ends (match ?x with _ => _ end) => destruct x
  | |- ends (if ?x then _ else _) => destruct x
  | |- ends _ => solve [auto]
  end.


Lemma ends_loop {A} (body : A -> Scope -> M (option value * Scope)) items scope :
  Forall (fun item => forall scope, ends (body item scope)) items ->
  ends (loop body items scope).
Proof.
  intros Hbody. revert scope.
  induction Hbody as [| item rest Hitem _ IH]; intros scope; simpl; [easy |].
  apply ends_bind; [apply Hitem | intros [[v |] scope']]; [easy | apply IH].
Qed.

Lemma block_depth_element (statements : list Statement) (stmt : Statement) :
  stmt ∈ statements -> S (depth stmt) <= block_depth statements.
Proof.
  unfold block_depth. induction 1 as [s l | s s' l _ IH]; simpl; lia.
Qed.

Lemma forallb_elem {A} (f : A -> bool) (l : list A) (a : A) :
  forallb f l = true -> a ∈ l -> f a = true.
Proof. rewrite forallb_forall. intros H Ha. apply H. now apply list_elem_of_In. Qed.

Section Purity.

Context {JS : JsHost}.
Variable build : Artifact.


Lemma evalExpr_ends (fuel : nat) (expr : Expression) (scope : Scope)
    (context : option ExecutionContext) :
  effect_free expr = true -> height expr < fuel ->
  ends (evalExpr build fuel expr scope context).
Proof.
  revert expr. induction fuel as [| fuel IH]; intros expr Hfree Hfuel; [lia |].
  destruct expr; simpl in Hfree, Hfuel |- *; try discriminate;
    repeat match goal with
           | H : _ && _ = true |- _ => apply andb_prop in H as [? ?]
           end;
    try solve [repeat ends_step; apply IH; solve [assumption | lia]].
  - apply ends_bind; [| intros; apply ends_ret]. apply ends_mapM.
    apply Forall_forall. intros kv Hkv.
    apply ends_bind; [| intros; apply ends_ret]. apply IH.
    + exact (forallb_elem (fun kv => effect_free kv.2) _ _ Hfree Hkv).
    + pose proof (height_element snd _ _ Hkv). simpl in *. lia.
  - apply ends_bind; [| intros; apply ends_ret]. apply ends_mapM.
    apply Forall_forall. intros el Hel. apply IH.
    + exact (forallb_elem _ _ _ Hfree Hel).
    + pose proof (height_element id _ _ Hel). simpl in *. lia.
Qed.


Lemma execution_ends (fuel : nat) :
  (forall stmt scope context,
      call_free stmt = true -> while_free stmt = true -> depth stmt < fuel ->
      ends (executeStmt build fuel stmt scope context))
  /\ (forall statements scope context,
         forallb call_free statements = true ->
         forallb while_free statements = true ->
         block_depth statements < fuel ->
         ends (executeBlock build fuel statements scope context)).
Proof.
  induction fuel as [| fuel (IHs & IHb)]; [split; intros; lia |].
  pose proof (evalExpr_ends fuel) as IHe. unfold block_depth in *.
  split.
  - intros stmt scope context Hfree Hwhile Hdepth.
    destruct stmt as [name e | name e | cond then_ else_ | item in_ do_ | cond do_ | e |];
      simpl in Hfree, Hwhile, Hdepth;
      repeat match goal with
             | H : _ && _ = true |- _ => apply andb_prop in H as [? ?]
             end.
    + rewrite executeStmt_let.
      apply ends_bind; [apply IHe; [assumption | lia] | intros; apply ends_ret].
    + rewrite executeStmt_set. destruct (scope !! name); [| apply ends_throw].
      apply ends_bind; [apply IHe; [assumption | lia] | intros; apply ends_ret].
    + rewrite executeStmt_if.
      apply ends_bind; [apply IHe; [assumption | lia] | intros c].
      destruct (truthy c).
      * destruct then_ as [block |]; apply IHb;
          solve [assumption | reflexivity | simpl in *; lia].
      * destruct else_ as [block |]; [| apply ends_ret].
        apply IHb; solve [assumption | simpl in *; lia].
    + rewrite executeStmt_for.
      apply ends_bind; [apply IHe; [assumption | lia] | intros iterable].
      destruct (iterable_items iterable) as [items |]; [| apply ends_throw].
      apply ends_loop, Forall_forall. intros value _ scope0.
      destruct do_ as [block |]; apply IHb;
        solve [assumption | reflexivity | simpl in *; lia].
    + discriminate.
    + cbn [executeStmt].
      apply ends_bind; [apply IHe; [assumption | lia] | intros; apply ends_ret].
    + apply ends_throw.
  - intros statements scope context Hfree Hwhile Hdepth. rewrite executeBlock_eq.
    apply ends_loop, Forall_forall. intros stmt Hstmt scope0.
    pose proof (block_depth_element _ _ Hstmt) as Hle. unfold block_depth in Hle.
    apply IHs; [exact (forallb_elem _ _ _ Hfree Hstmt)
               | exact (forallb_elem _ _ _ Hwhile Hstmt) | lia].
Qed.


(** X3: calls and [while] statements are the only sources of
    non-termination: an expression without calls, and a block without calls
    and without [while] statements, evaluated with more fuel than the
    nesting depth, ends with a value or an exception and never with the
    fuel exhausted, however long the iterables of its [for] statements
    are. *)
Theorem code_without_calls_and_while_terminates (fuel : nat) (scope : Scope)
    (context : option ExecutionContext) (m : Machine) :
  (forall expr,
      effect_free expr = true -> height expr < fuel ->
      (evalExpr build fuel expr scope context m).1 <> OutOfFuel)
  /\ (forall statements,
         forallb call_free statements = true ->
         forallb while_free statements = true ->
         block_depth statements < fuel ->
         (executeBlock build fuel statements scope context m).1 <> OutOfFuel).
Proof.
  split.
  - intros expr Hfree Hfuel. now apply evalExpr_ends.
  - intros statements Hfree Hwhile Hfuel. now apply (execution_ends fuel).
Qed.

End Purity.

(** ** Blocks *)

Section Blocks.

Context {JS : JsHost}.
Variable build : Artifact.

(** X4: a block made of two lists of statements runs the first list and
    then, unless the first list gave a return signal, threw or ran out of
    fuel, the second list on the scope and machine the first one left. *)
Theorem blocks_run_in_sequence (fuel : nat) (first second : list Statement)
    (scope : Scope) (context : option ExecutionContext) (m : Machine) :
  executeBlock build fuel (first ++ second) scope context m
  = (let* (signal, scope') := executeBlock build fuel first scope context in
     match signal with
     | Some v => ret (Some v, scope')
     | None => executeBlock build fuel second scope' context
     end) m.
Proof.
  destruct fuel as [| fuel]; [reflexivity |].
  rewrite !executeBlock_eq. apply loop_app.
Qed.

(** X5: the statements that follow a [return] statement in a block are
    never executed: the block behaves as if it ended with the [return]. *)
Theorem statements_after_return_never_run (fuel : nat)
    (before after : list Statement) (value : Expression)
    (scope : Scope) (context : option ExecutionContext) (m : Machine) :
  executeBlock build fuel (before ++ SReturn value :: after) scope context m
  = executeBlock build fuel (before ++ [SReturn value]) scope context m.
Proof.
  destruct fuel as [| fuel]; [reflexivity |].
  rewrite !executeBlock_eq, !loop_app. apply bind_ext.
  intros [[v |] scope'] m1; [reflexivity |].
  cbn [loop]. destruct fuel as [| fuel]; [reflexivity |].
  cbn [executeStmt]. rewrite !bind_assoc. apply bind_ext.
  intros v m2. reflexivity.
Qed.

End Blocks.

(** ** Scopes *)

Lemma bindings_kept_refl scope : bindings_kept scope scope.
Proof. intros name H. exact H. Qed.

Lemma bindings_kept_trans scope1 scope2 scope3 :
  bindings_kept scope1 scope2 -> bindings_kept scope2 scope3 ->
  bindings_kept scope1 scope3.
Proof. intros H1 H2 name H. apply H2, H1, H. Qed.

Lemma bindings_kept_insert (scope : Scope) name v :
  bindings_kept scope (<[name := v]> scope).
Proof.
  intros name' H. destruct (decide (name = name')) as [<- | Hne].
  - rewrite lookup_insert_eq. eauto.
  - now rewrite lookup_insert_ne.
Qed.

Lemma keeps_bindings_weaken {A} (scope0 scope : Scope) (c : M (A * Scope)) :
  bindings_kept scope0 scope -> keeps_bindings scope c -> keeps_bindings scope0 c.
Proof.
  intros H0 Hc m a scope' m' Hrun.
  eapply bindings_kept_trans; [exact H0 | exact (Hc _ _ _ _ Hrun)].
Qed.

Lemma keeps_bindings_loop {A} (body : A -> Scope -> M (option value * Scope)) items scope :
  (forall item scope, keeps_bindings scope (body item scope)) ->
  keeps_bindings scope (loop body items scope).
Proof.
  intros Hbody. revert scope.
  induction items as [| item rest IH]; intros scope m signal scope' m' Hrun.
  - injection Hrun as _ <- _. apply bindings_kept_refl.
  - cbn [loop] in Hrun.
    apply bind_inv_ok in Hrun as ([result scope1] & m1 & Hitem & Hrun).
    apply Hbody in Hitem. destruct result as [v |].
    + injection Hrun as _ <- _. exact Hitem.
    + eapply bindings_kept_trans; [exact Hitem | exact (IH _ _ _ _ _ Hrun)].
Qed.

Section Scopes.

Context {JS : JsHost}.
Variable build : Artifact.

Lemma execution_keeps_bindings (fuel : nat) :
  (forall stmt scope context,
      keeps_bindings scope (executeStmt build fuel stmt scope context))
  /\ (forall iterations cond do_ scope context,
         keeps_bindings scope (whileLoop build fuel iterations cond do_ scope context))
  /\ (forall statements scope context,
         keeps_bindings scope (executeBlock build fuel statements scope context)).
Proof.
  induction fuel as [| fuel (IHs & IHw & IHb)].
  - repeat split; intros; intros m a scope' m' [=].
  - split; [| split].
    + intros stmt scope context m signal scope' m' Hrun.
      destruct stmt as [name e | name e | cond then_ else_ | item in_ do_ | cond do_ | e |].
      * rewrite executeStmt_let in Hrun.
        apply bind_inv_ok in Hrun as (v & m1 & _ & Hrun).
        injection Hrun as _ <- _. apply bindings_kept_insert.
      * rewrite executeStmt_set in Hrun.
        destruct (scope !! name) as [old |]; [| discriminate].
        apply bind_inv_ok in Hrun as (v & m1 & _ & Hrun).
        injection Hrun as _ <- _. apply bindings_kept_insert.
      * rewrite executeStmt_if in Hrun.
        apply bind_inv_ok in Hrun as (c & m1 & _ & Hrun).
        destruct (truthy c); [exact (IHb _ _ _ _ _ _ _ Hrun) |].
        destruct else_ as [else_ |]; [exact (IHb _ _ _ _ _ _ _ Hrun) |].
        injection Hrun as _ <- _. apply bindings_kept_refl.
      * rewrite executeStmt_for in Hrun.
        apply bind_inv_ok in Hrun as (iterable & m1 & _ & Hrun).
        destruct (iterable_items iterable) as [items |]; [| discriminate].
        revert Hrun. apply keeps_bindings_loop.
        intros value scope0.
        apply (keeps_bindings_weaken _ (<[item := value]> scope0));
          [apply bindings_kept_insert | apply IHb].
      * rewrite executeStmt_while in Hrun. exact (IHw _ _ _ _ _ _ _ _ _ Hrun).
      * cbn [executeStmt] in Hrun.
        apply bind_inv_ok in Hrun as (v & m1 & _ & Hrun).
        injection Hrun as _ <- _. apply bindings_kept_refl.
      * discriminate.
    + intros iterations cond do_ scope context m signal scope' m' Hrun.
      rewrite whileLoop_eq in Hrun.
      apply bind_inv_ok in Hrun as (guard & m1 & _ & Hrun).
      destruct (truthy guard).
      * destruct (over_limit build (iterations + 1)); [discriminate |].
        apply bind_inv_ok in Hrun as ([result scope1] & m2 & Hbody & Hrun).
        apply IHb in Hbody. destruct result as [v |].
        -- injection Hrun as _ <- _. exact Hbody.
        -- eapply bindings_kept_trans; [exact Hbody |].
           exact (IHw _ _ _ _ _ _ _ _ _ Hrun).
      * injection Hrun as _ <- _. apply bindings_kept_refl.
    + intros statements scope context. rewrite executeBlock_eq.
      apply keeps_bindings_loop. intros stmt scope0. apply IHs.
Qed.

(** X6: executing statements never removes a binding: a name that is bound
    in the scope before a block runs is bound in the scope the block leaves,
    whether the block ended normally or with a return signal. *)
Theorem bindings_are_never_removed (fuel : nat) (statements : list Statement)
    (scope : Scope) (context : option ExecutionContext) (m : Machine)
    (signal : option value) (scope' : Scope) (m' : Machine) (name : string) :
  executeBlock build fuel statements scope context m = (Ok (signal, scope'), m') ->
  is_Some (scope !! name) ->
  is_Some (scope' !! name).
Proof.
  intros Hrun. destruct (execution_keeps_bindings fuel) as (_ & _ & Hb).
  exact (Hb _ _ _ _ _ _ _ Hrun name).
Qed.

(** X7: the variable of a [for] statement is not local to the loop: after
    a loop over a non-empty iterable, the variable is bound in the enclosing
    scope. *)
Theorem loop_variable_outlives_the_loop (fuel : nat) (item : string)
    (in_ : Expression) (do_ : option (list Statement))
    (scope : Scope) (context : option ExecutionContext) (m m1 : Machine)
    (iterable first : value) (rest : list value)
    (signal : option value) (scope' : Scope) (m' : Machine) :
  evalExpr build fuel in_ scope context m = (Ok iterable, m1) ->
  iterable_items iterable = Some (first :: rest) ->
  executeStmt build (S fuel) (SFor item in_ do_) scope context m
  = (Ok (signal, scope'), m') ->
  is_Some (scope' !! item).
Proof.
  intros Hin Hitems Hrun.
  rewrite executeStmt_for, (bind_ok _ _ _ _ _ Hin), Hitems in Hrun.
  cbn [loop] in Hrun.
  apply bind_inv_ok in Hrun as ([result scope1] & m2 & Hbody & Hrun).
  destruct (execution_keeps_bindings fuel) as (_ & _ & Hb).
  assert (H1 : is_Some (scope1 !! item)).
  { apply (Hb _ _ _ _ _ _ _ Hbody). rewrite lookup_insert_eq. eauto. }
  destruct result as [v |].
  - injection Hrun as _ <- _. exact H1.
  - revert Hrun. intros Hrun.
    eapply (keeps_bindings_loop _ rest scope1); [| exact Hrun | exact H1].
    intros value scope0.
    apply (keeps_bindings_weaken _ (<[item := value]> scope0));
      [apply bindings_kept_insert | apply Hb].
Qed.

End Scopes.

(** ** Iteration over strings *)

Section Iteration.

Context {JS : JsHost}.
Variable build : Artifact.

Lemma evalExpr_array fuel elements scope context :
  evalExpr build (S fuel) (EArray elements) scope context
  = (let* result := mapM (fun el => evalExpr build fuel el scope context) elements in
     ret (VArr result)).
Proof. reflexivity. Qed.

Lemma mapM_literals fuel (literals : list Literal) scope context m :
  mapM (fun el => evalExpr build (S fuel) el scope context) (map ELiteral literals) m
  = (Ok (map literal_value literals), m).
Proof.
  induction literals as [| literal literals IH]; [reflexivity |].
  cbn [map mapM]. rewrite (bind_ok _ _ m (literal_value literal) m) by reflexivity.
  now rewrite (bind_ok _ _ _ _ _ IH).
Qed.

(** X8: a [for] statement over a string visits its characters, as the
    same statement over the array of the one-character strings does, except
    for the empty string: a [for] over the empty string throws
    [NotIterable], although a [for] over the empty array just ends. *)
Theorem for_over_a_string (fuel : nat) (item : string) (s : string)
    (do_ : option (list Statement)) (scope : Scope)
    (context : option ExecutionContext) (m : Machine) :
  let characters :=
    map (fun c => LitString (String c EmptyString)) (list_ascii_of_string s) in
  executeStmt build (3 + fuel) (SFor item (ELiteral (LitString EmptyString)) do_)
    scope context m
  = (Throw NotIterable, m)
  /\ executeStmt build (3 + fuel) (SFor item (EArray []) do_) scope context m
     = (Ok (None, scope), m)
  /\ (s <> EmptyString ->
      executeStmt build (3 + fuel) (SFor item (ELiteral (LitString s)) do_) scope context m
      = executeStmt build (3 + fuel) (SFor item (EArray (map ELiteral characters)) do_)
          scope context m).
Proof.
  intros characters. split; [reflexivity |]. split; [reflexivity |].
  intros Hs. cbn [Nat.add]. rewrite !executeStmt_for.
  rewrite (bind_ok _ _ m (VStr s) m) by reflexivity.
  rewrite (bind_ok _ _ m (VArr (map literal_value characters)) m).
  - destruct s as [| c s]; [now contradiction Hs |].
    unfold characters. cbn [iterable_items truthy negb]. now rewrite map_map.
  - rewrite evalExpr_array.
    now rewrite (bind_ok _ _ _ _ _ (mapM_literals fuel characters _ _ m)).
Qed.

End Iteration.

(** ** Parameters and the trailing return *)

Lemma bind_params_last before p after i args (scope : Scope) :
  p ∉ after ->
  bind_params (before ++ p :: after) i args scope !! p
  = Some (arg args (i + length before)).
Proof.
  revert i scope. induction before as [| q before IH]; intros i scope Hp; simpl.
  - rewrite bind_params_other by exact Hp.
    rewrite lookup_insert_eq. now rewrite Nat.add_0_r.
  - rewrite IH by exact Hp. do 2 f_equal. lia.
Qed.

Lemma bind_params_agree params i args args' (scope : Scope) :
  (forall j, j < length params -> arg args (i + j) = arg args' (i + j)) ->
  bind_params params i args scope = bind_params params i args' scope.
Proof.
  revert i scope. induction params as [| p params IH]; intros i scope H; [reflexivity |].
  simpl. replace (arg args' i) with (arg args i).
  - apply IH. intros j Hj. replace (S i + j) with (i + S j) by lia.
    apply H. simpl. lia.
  - specialize (H 0). rewrite Nat.add_0_r in H. apply H. simpl. lia.
Qed.

Lemma arg_take args n i : i < n -> arg (take n args) i = arg args i.
Proof. intros H. unfold arg. now rewrite lookup_take_lt. Qed.

Lemma arg_padded args k i : arg (args ++ replicate k VUndefined) i = arg args i.
Proof.
  unfold arg. destruct (decide (i < length args)) as [Hlt | Hge].
  - now rewrite lookup_app_l.
  - rewrite lookup_app_r by lia. rewrite (lookup_ge_None_2 args i) by lia.
    destruct (replicate k VUndefined !! (i - length args)) as [v |] eqn:Hv; [| reflexivity].
    apply lookup_replicate_1 in Hv as [-> _]. reflexivity.
Qed.

Section Parameters.

Context {JS : JsHost}.
Variable build : Artifact.

Lemma invoke_depends_on_bound_arguments fuel fnName params body result variables args args' m :
  bind_params params 0 args (seed_variables variables ∅)
  = bind_params params 0 args' (seed_variables variables ∅) ->
  invoke build fuel (closure fnName params body result variables) args m
  = invoke build fuel (closure fnName params body result variables) args' m.
Proof.
  intros Hscope. destruct fuel as [| fuel]; [reflexivity |]. unfold closure.
  rewrite !invoke_runs_body. cbv zeta. now rewrite Hscope.
Qed.

(** X9: a compiled function binds every declared parameter to the argument
    at the parameter's position, whatever the context says about that name
    and however many arguments were passed (a missing argument is
    [undefined]); when a name is declared more than once, its last position
    counts.  So a function that returns its parameter [p] returns the
    argument at the last position of [p]. *)
Theorem parameter_takes_the_argument_at_its_position (fuel : nat) (fnName : string)
    (before : list string) (p : string) (after : list string)
    (variables : list (string * value)) (args : list value) (m : Machine) :
  functionDefs (compiler m) !! fnName
  = Some (function (before ++ p :: after) [] (ERef p)) ->
  p ∉ after ->
  exists fn m1,
    compile fnName (Some (variables_only variables)) m = (Ok fn, m1)
    /\ invoke build (S (S fuel)) fn args m1 = (Ok (arg args (length before)), m1).
Proof.
  intros Hdef Hp.
  pose proof (compile_loaded fnName (Some (variables_only variables)) m _ _
                (before ++ p :: after) Hdef eq_refl eq_refl) as Hc.
  cbv zeta in Hc. eexists _, _. split; [exact Hc |].
  rewrite invoke_runs_body. cbv zeta.
  rewrite (bind_ok _ _ _ (@None value,
             bind_params (before ++ p :: after) 0 args (seed_variables variables ∅)) _)
    by reflexivity.
  cbv beta iota. cbn [slot_present].
  apply evalExpr_ref_bound. now rewrite bind_params_last.
Qed.

(** X10: a closure compiled without hooks and without the debug flag looks
    at its arguments through its parameters only: the arguments beyond the
    declared parameters are ignored, and passing fewer arguments is the same
    as passing [undefined] for the rest. *)
Theorem arguments_beyond_the_parameters_are_ignored (fuel : nat) (fnName : string)
    (params : list string) (body : list Statement) (result : Expression)
    (variables : list (string * value)) (args : list value) (m : Machine) :
  invoke build fuel (closure fnName params body result variables) args m
  = invoke build fuel (closure fnName params body result variables)
      (take (length params) args) m
  /\ forall k,
      invoke build fuel (closure fnName params body result variables) args m
      = invoke build fuel (closure fnName params body result variables)
          (args ++ replicate k VUndefined) m.
Proof.
  split; [| intros k]; apply invoke_depends_on_bound_arguments, bind_params_agree;
    intros j Hj; simpl.
  - symmetry. now apply arg_take.
  - symmetry. apply arg_padded.
Qed.

(** X11: the trailing [return] of a function is tested for truthiness
    before it is evaluated, so a falsy shorthand is skipped: a function
    whose body gives no return signal and whose [return] is the number
    shorthand [x] with [x] falsy ([0], [-0], [NaN]) yields [undefined],
    although the same expression evaluates to [x] and the literal node for
    [x] in the same place yields [x]. *)
Theorem falsy_shorthand_return_is_skipped (fuel : nat) (fnName : string)
    (params : list string) (body : list Statement)
    (variables : list (string * value)) (args : list value)
    (m m' : Machine) (scope' : Scope) (x : float) :
  executeBlock build (S fuel) body
    (bind_params params 0 args (seed_variables variables ∅))
    (Some (variables_only variables)) m = (Ok (None, scope'), m') ->
  truthy (VNum x) = false ->
  invoke build (S (S fuel)) (closure fnName params body (ENumber x) variables) args m
  = (Ok VUndefined, m')
  /\ invoke build (S (S fuel))
       (closure fnName params body (ELiteral (LitNumber x)) variables) args m
     = (Ok (VNum x), m')
  /\ evalExpr build (S fuel) (ENumber x) scope' (Some (variables_only variables)) m'
     = (Ok (VNum x), m').
Proof.
  intros Hbody Hfalsy. unfold closure.
  split; [| split; [| reflexivity]].
  - rewrite invoke_runs_body. cbv zeta. rewrite (bind_ok _ _ _ _ _ Hbody).
    cbv beta iota. cbn [slot_present]. now rewrite Hfalsy.
  - rewrite invoke_runs_body. cbv zeta. rewrite (bind_ok _ _ _ _ _ Hbody).
    reflexivity.
Qed.

End Parameters.

(** ** Loading and compiling *)

Section Loading.

Context {JS : JsHost}.

Lemma validateFunction_well_formed name def :
  validateFunction name def = Ok tt <-> well_formed def.
Proof.
  unfold validateFunction, well_formed. split.
  - destruct (String.eqb (fd_type def) "FUNCTION") eqn:Htag; [| discriminate].
    apply String.eqb_eq in Htag. cbn [negb].
    destruct (fd_config def) as [config |]; [| discriminate].
    destruct (fc_params config) as [| | params] eqn:Hp; [discriminate | discriminate |].
    destruct (fc_body config) as [| | body] eqn:Hb; [discriminate | discriminate |].
    intros _. split; [exact Htag |]. exists config, params, body. now rewrite Hp, Hb.
  - intros (Htag & config & params & body & Hc & Hp & Hb).
    now rewrite Htag, Hc, Hp, Hb.
Qed.

Lemma function_well_formed params body result :
  well_formed (function params body result).
Proof. split; [reflexivity |]. eexists _, _, _. repeat split. Qed.

Lemma constructor_validated : validated constructor.
Proof. intros name def. cbn [constructor functionDefs]. now rewrite lookup_empty. Qed.

Lemma load_entries_frame entries m :
  same_outside_definitions m (load_entries entries m).2.
Proof.
  revert m. induction entries as [| [name def] rest IH]; intros m; [easy |].
  cbn [load_entries]. unfold bind at 1. unfold lift at 1.
  destruct (validateFunction name def) as [[] | e |]; [| easy | easy].
  unfold bind at 1. cbn [set_functionDefs]. exact (IH _).
Qed.

Lemma load_entries_stores entries m :
  Forall (fun e => well_formed e.2) entries ->
  exists m',
    load_entries entries m = (Ok tt, m')
    /\ functionDefs (compiler m')
       = list_to_map (reverse entries) ∪ functionDefs (compiler m).
Proof.
  intros Hwf. revert m.
  induction Hwf as [| [name def] rest Hdef _ IH]; intros m.
  - exists m. split; [reflexivity |]. cbn. now rewrite (left_id ∅ (∪)).
  - cbn [load_entries]. unfold bind at 1. unfold lift at 1.
    cbn [snd] in Hdef. apply (validateFunction_well_formed name) in Hdef. rewrite Hdef.
    unfold bind at 1. cbn [set_functionDefs].
    destruct (IH {| compiler := {| functionDefs := <[name := def]> (functionDefs (compiler m));
                                   compiledFunctions := compiledFunctions (compiler m);
                                   builtins := builtins (compiler m);
                                   allowedMethods := allowedMethods (compiler m);
                                   debugMode := debugMode (compiler m) |};
                    world := world m |}) as (m' & Hrun & Hdefs).
    exists m'. split; [exact Hrun |]. rewrite Hdefs. cbn [compiler functionDefs].
    rewrite reverse_cons, list_to_map_app. cbn [list_to_map foldr fst snd uncurry].
    rewrite <- (assoc_L (∪)). f_equal.
    now rewrite insert_union_singleton_l, insert_empty.
Qed.

Lemma load_entries_validated entries m :
  validated (compiler m) -> validated (compiler (load_entries entries m).2).
Proof.
  revert m. induction entries as [| [name def] rest IH]; intros m Hm; [exact Hm |].
  cbn [load_entries]. unfold bind at 1. unfold lift at 1.
  destruct (validateFunction name def) as [[] | e |] eqn:Hvalid; [| exact Hm | exact Hm].
  unfold bind at 1. cbn [set_functionDefs]. apply IH.
  intros name' def'. cbn [compiler functionDefs].
  destruct (decide (name = name')) as [<- | Hne].
  - rewrite lookup_insert_eq. intros [= <-].
    now apply (validateFunction_well_formed name).
  - rewrite lookup_insert_ne by exact Hne. apply Hm.
Qed.

Lemma load_writes_nothing_else config m : same_outside_definitions m (load config m).2.
Proof.
  destruct config as [[[entries |]] |]; [| easy | easy]. apply load_entries_frame.
Qed.

(** X12: [load] writes to the loaded definitions and to nothing else:
    however it ends, the cache of compiled functions, the builtin table,
    the method whitelist, the debug flag and the host world are what they
    were.  In particular a closure that was compiled before a definition
    was loaded again is still the one [get] returns. *)
Theorem load_writes_the_definitions_only (config : option DslConfig) (m : Machine) :
  same_outside_definitions m (load config m).2
  /\ forall fnName, (get fnName (load config m).2).1 = (get fnName m).1.
Proof.
  pose proof (load_writes_nothing_else config m) as H.
  split; [exact H |]. intros fnName. destruct H as (Hcache & _).
  unfold get, bind, this, ret. cbn [fst]. now rewrite Hcache.
Qed.

(** X13: a document whose entries all pass validation is loaded
    completely: [load] ends normally, and the stored definitions are those
    of the document laid over the ones stored before, a later entry of the
    document replacing an earlier entry of the same name.  So every name
    outside the document keeps its definition, and when the names of the
    document are distinct every entry is stored under its name. *)
Theorem load_stores_every_entry (entries : list (string * FunctionDef)) (m : Machine) :
  Forall (fun e => well_formed e.2) entries ->
  exists m',
    load (document entries) m = (Ok tt, m')
    /\ functionDefs (compiler m')
       = list_to_map (reverse entries) ∪ functionDefs (compiler m)
    /\ (forall name, name ∉ entries.*1 ->
          functionDefs (compiler m') !! name = functionDefs (compiler m) !! name)
    /\ (NoDup entries.*1 ->
        forall name def, (name, def) ∈ entries ->
          functionDefs (compiler m') !! name = Some def).
Proof.
  intros Hwf. destruct (load_entries_stores entries m Hwf) as (m' & Hrun & Hdefs).
  exists m'. split; [exact Hrun |]. split; [exact Hdefs |]. split.
  - intros name Hname. rewrite Hdefs. apply lookup_union_r.
    apply not_elem_of_list_to_map_1. rewrite fmap_reverse, elem_of_reverse. exact Hname.
  - intros Hnodup name def Hin. rewrite Hdefs. apply lookup_union_Some_l.
    apply elem_of_list_to_map_1.
    + rewrite fmap_reverse. now rewrite reverse_Permutation.
    + now apply elem_of_reverse.
Qed.

(** X14: [load] is not atomic.  It validates and stores entry by entry,
    so when an entry fails validation the exception of that entry is raised
    and the entries before it stay stored: the machine is the one that
    loading those entries alone leaves. *)
Theorem load_stops_at_the_first_invalid_entry (good : list (string * FunctionDef))
    (name : string) (bad : FunctionDef) (rest : list (string * FunctionDef))
    (fault : Error) (m : Machine) :
  Forall (fun e => well_formed e.2) good ->
  validateFunction name bad = Throw fault ->
  exists m',
    load (document good) m = (Ok tt, m')
    /\ load (document (good ++ (name, bad) :: rest)) m = (Throw fault, m')
    /\ functionDefs (compiler m')
       = list_to_map (reverse good) ∪ functionDefs (compiler m).
Proof.
  intros Hgood Hbad.
  destruct (load_entries_stores good m Hgood) as (m' & Hrun & Hdefs).
  exists m'. split; [exact Hrun |]. split; [| exact Hdefs].
  cbn [load document mbind option_bind functions] in *.
  clear Hdefs. revert m Hrun.
  induction Hgood as [| [name0 def0] good Hdef _ IH]; intros m Hrun.
  - injection Hrun as <-. cbn [app load_entries].
    unfold bind at 1. unfold lift at 1. now rewrite Hbad.
  - cbn [app load_entries] in *. unfold bind at 1 in Hrun. unfold bind at 1.
    unfold lift at 1 in Hrun. unfold lift at 1.
    cbn [snd] in Hdef. apply (validateFunction_well_formed name0) in Hdef.
    rewrite Hdef in *.
    unfold bind at 1 in Hrun. unfold bind at 1. cbn [set_functionDefs] in *.
    exact (IH _ Hrun).
Qed.

(** X15: the definitions stored in the compiler have all passed
    [validateFunction]: this holds of a new compiler and is preserved by
    [load], however [load] ends, by [compile], by [addBuiltin] and by every
    call of a compiled function. *)
Theorem stored_definitions_are_validated :
  validated constructor
  /\ (forall config m,
         validated (compiler m) -> validated (compiler (load config m).2))
  /\ (forall fnName context m,
         validated (compiler m) -> validated (compiler (compile fnName context m).2))
  /\ (forall name fn m,
         validated (compiler m) -> validated (compiler (addBuiltin name fn m).2))
  /\ (forall build fuel compiledFn args m,
         validated (compiler m) ->
         validated (compiler (invoke build fuel compiledFn args m).2)).
Proof.
  split; [exact constructor_validated |].
  split.
  { intros [[[entries |]] |] m Hm; try exact Hm. now apply load_entries_validated. }
  split.
  { intros fnName context m Hm name def.
    destruct (keeps_compile fnName context m) as (-> & _). apply Hm. }
  split; [intros name fn m Hm; exact Hm |].
  intros build fuel compiledFn args m Hm name def.
  destruct (evaluation_keeps_registry build fuel) as (_ & _ & _ & _ & Hinvoke).
  destruct (Hinvoke compiledFn args m) as (-> & _). apply Hm.
Qed.

(** X16: on a compiler whose stored definitions are validated, [compile]
    fails for the names that are not loaded, with [FunctionNotFound] and
    without changing anything, and for no other reason: for a loaded name it
    returns a closure of that definition and of the given context, which
    takes the place of the name in the cache and leaves the rest of the
    machine as it was. *)
Theorem compile_fails_for_unknown_names_only (fnName : string)
    (context : option ExecutionContext) (m : Machine) :
  validated (compiler m) ->
  match functionDefs (compiler m) !! fnName with
  | None => compile fnName context m = (Throw (FunctionNotFound fnName), m)
  | Some def =>
      exists fn m',
        compile fnName context m = (Ok fn, m')
        /\ cf_fnName fn = fnName /\ cf_def fn = def /\ cf_context fn = context
        /\ (exists config,
              fd_config def = Some config
              /\ normalizeParams (fc_params config) = Ok (cf_params fn))
        /\ compiledFunctions (compiler m') = <[fnName := fn]> (compiledFunctions (compiler m))
        /\ same_outside_cache m m'
  end.
Proof.
  intros Hvalid. destruct (functionDefs (compiler m) !! fnName) as [def |] eqn:Hdef.
  - destruct (Hvalid _ _ Hdef) as (_ & config & params & body & Hc & Hp & _).
    assert (Hn : exists names, normalizeParams (fc_params config) = Ok names).
    { rewrite Hp. destruct params; simpl; eauto. }
    destruct Hn as (names & Hn).
    pose proof (compile_loaded fnName context m def config names Hdef Hc Hn) as Hrun.
    cbv zeta in Hrun. eexists _, _. split; [exact Hrun |].
    split; [reflexivity |]. split; [reflexivity |]. split; [reflexivity |].
    split; [exists config; split; [exact Hc | exact Hn] |].
    split; [reflexivity |]. easy.
  - unfold compile, bind, this. now rewrite Hdef.
Qed.

(** X17: [get] returns what the last successful [compile] of the name
    cached and never compiles anything itself; a [compile] of another name
    does not change what [get] returns; and a [compile] that throws leaves
    the machine untouched. *)
Theorem get_returns_the_last_compiled_closure (fnName : string)
    (context : option ExecutionContext) (m : Machine) :
  (forall name, (get name m).2 = m)
  /\ (forall fn m', compile fnName context m = (Ok fn, m') ->
        get fnName m' = (Ok (Some fn), m')
        /\ forall other, other <> fnName -> (get other m').1 = (get other m).1)
  /\ (forall e m', compile fnName context m = (Throw e, m') -> m' = m).
Proof.
  split; [reflexivity |].
  unfold compile, bind, this.
  destruct (functionDefs (compiler m) !! fnName) as [def |].
  - destruct (fd_config def) as [config |].
    + unfold lift. destruct (normalizeParams (fc_params config)) as [params | e |].
      * split; [| discriminate]. intros fn m' [= <- <-].
        unfold get, bind, this, ret. cbn.
        split; [now rewrite lookup_insert_eq |].
        intros other Hne. now rewrite lookup_insert_ne.
      * split; [discriminate |]. now intros e0 m' [= _ <-].
      * split; discriminate.
    + split; [discriminate |]. now intros e m' [= _ <-].
  - split; [discriminate |]. now intros e m' [= _ <-].
Qed.

End Loading.

(** ** The cache of compiled functions *)

Lemma cache_grows_refl m : cache_grows m m.
Proof. intros name fn H. exact H. Qed.

Lemma cache_grows_trans m1 m2 m3 :
  cache_grows m1 m2 -> cache_grows m2 m3 -> cache_grows m1 m3.
Proof. intros H1 H2 name fn H. apply H2, H1, H. Qed.

Create HintDb cache.

Lemma cache_ret {A} (a : A) : keeps_cache (ret a).
Proof. intros m. apply cache_grows_refl. Qed.

Lemma cache_throw {A} e : keeps_cache (@throw A e).
Proof. intros m. apply cache_grows_refl. Qed.

Lemma cache_timeout {A} : keeps_cache (@timeout A).
Proof. intros m. apply cache_grows_refl. Qed.

Lemma cache_lift {A} (r : Outcome A) : keeps_cache (lift r).
Proof. intros m. apply cache_grows_refl. Qed.

Lemma cache_this : keeps_cache this.
Proof. intros m. apply cache_grows_refl. Qed.

Lemma cache_host {A} (h : Host A) : keeps_cache (host h).
Proof. intros m. unfold host. destruct (h (world m)). intros name fn H. exact H. Qed.

Lemma cache_bind {A B} (c : M A) (k : A -> M B) :
  keeps_cache c -> (forall a, keeps_cache (k a)) -> keeps_cache (bind c k).
Proof.
  intros Hc Hk m. unfold bind. specialize (Hc m).
  destruct (c m) as [[a | e |] m1]; simpl in *; try exact Hc.
  eapply cache_grows_trans; [exact Hc | apply Hk].
Qed.

Lemma cache_bind_this {B} (k : JsonDslCompiler -> M B) :
  (forall m, cache_grows m (k (compiler m) m).2) -> keeps_cache (bind this k).
Proof. intros Hk m. apply Hk. Qed.

Lemma cache_log_line line : keeps_cache (log_line line).
Proof. apply cache_bind; [apply cache_host | intros; apply cache_ret]. Qed.

#[local] Hint Resolve cache_ret cache_throw cache_timeout cache_lift cache_this
  cache_host cache_log_line : cache.

Lemma cache_mapM {A B} (f : A -> M B) (l : list A) :
  (forall a, keeps_cache (f a)) -> keeps_cache (mapM f l).
Proof.
  intros Hf. induction l as [| a l IH]; simpl; [apply cache_ret |].
  apply cache_bind; [apply Hf | intros b].
  apply cache_bind; [exact IH | intros; apply cache_ret].
Qed.

Lemma cache_loop {A} (body : A -> Scope -> M (option value * Scope)) items scope :
  (forall item scope, keeps_cache (body item scope)) ->
  keeps_cache (loop body items scope).
Proof.
  intros Hbody. revert scope.
  induction items as [| item rest IH]; intros scope; simpl; [apply cache_ret |].
  apply cache_bind; [apply Hbody | intros [[v |] scope']]; [apply cache_ret | apply IH].
Qed.

Ltac cache_step :=
  match goal with
  | |- keeps_cache (bind _ _) => apply cache_bind; [| intros ?]
  | |- keeps_cache (mapM _ _) => apply cache_mapM; intros ?
  | |- keeps_cache (loop _ _ _) => apply cache_loop; intros ? ?
  | |- keeps_cache (match ?x with _ => _ end) => destruct x
  | |- keeps_cache _ => solve [auto with cache]
  end.

Section Cache.

Context {JS : JsHost}.
Variable build : Artifact.

(** Compiling a name that is not in the cache yet. *)
Lemma cache_compile_fresh {B} fnName context (k : CompiledFunction -> M B) m :
  compiledFunctions (compiler m) !! fnName = None ->
  (forall fn, keeps_cache (k fn)) ->
  cache_grows m (bind (compile fnName context) k m).2.
Proof.
  intros Hfresh Hk. unfold compile. rewrite bind_assoc. unfold bind at 1, this at 1.
  destruct (functionDefs (compiler m) !! fnName) as [def |]; [| apply cache_grows_refl].
  destruct (fd_config def) as [config |]; [| apply cache_grows_refl].
  rewrite bind_assoc. unfold bind at 1, lift at 1.
  destruct (normalizeParams (fc_params config)) as [params | e |];
    [| apply cache_grows_refl | apply cache_grows_refl].
  rewrite bind_assoc. unfold bind at 1. cbn [set_compiledFunctions].
  rewrite bind_ok with (a := {| cf_fnName := fnName; cf_def := def;
                                cf_params := params; cf_context := context |})
                       (m' := {| compiler := {| functionDefs := functionDefs (compiler m);
                                   compiledFunctions :=
                                     <[fnName := {| cf_fnName := fnName; cf_def := def;
                                                    cf_params := params;
                                                    cf_context := context |}]>
                                       (compiledFunctions (compiler m));
                                   builtins := builtins (compiler m);
                                   allowedMethods := allowedMethods (compiler m);
                                   debugMode := debugMode (compiler m) |};
                                 world := world m |})
    by reflexivity.
  eapply cache_grows_trans; [| apply Hk].
  intros name fn Hname. cbn [compiler compiledFunctions].
  rewrite lookup_insert_ne; [exact Hname |]. intros <-. congruence.
Qed.

Lemma evaluation_keeps_cache (fuel : nat) :
  (forall expr scope context, keeps_cache (evalExpr build fuel expr scope context))
  /\ (forall stmt scope context, keeps_cache (executeStmt build fuel stmt scope context))
  /\ (forall iterations cond do_ scope context,
         keeps_cache (whileLoop build fuel iterations cond do_ scope context))
  /\ (forall statements scope context,
         keeps_cache (executeBlock build fuel statements scope context))
  /\ (forall compiledFn args, keeps_cache (invoke build fuel compiledFn args)).
Proof.
  induction fuel as [| fuel (IHe & IHs & IHw & IHb & IHi)].
  - repeat split; intros; apply cache_timeout.
  - split; [| split; [| split; [| split]]].
    + intros expr scope context. destruct expr; simpl; try solve [repeat cache_step].
      apply cache_bind; [apply cache_mapM; intros a; apply IHe | intros args].
      destruct (entry (context ≫= ctx_builtins) call); [apply cache_host |].
      apply cache_bind_this. intros m.
      destruct (builtins (compiler m) !! call); [apply cache_host |].
      destruct (entry (context ≫= ctx_functions) call); [apply cache_host |].
      destruct (compiledFunctions (compiler m) !! call) eqn:Hcached; [apply IHi |].
      destruct (functionDefs (compiler m) !! call); [| apply cache_throw].
      apply cache_compile_fresh; [exact Hcached | intros fn; apply IHi].
    + intros stmt scope context. destruct stmt; simpl; repeat cache_step.
    + intros iterations cond do_ scope context. simpl. repeat cache_step.
    + intros statements scope context. simpl. repeat cache_step.
    + intros compiledFn args. simpl. repeat cache_step.
Qed.

(** X18: evaluation only ever adds to the cache of compiled functions: a
    closure that is cached under a name is still cached under that name,
    unchanged, after any call of a compiled function, any expression and
    any block, however they end.  (Only [compile] itself replaces a cached
    closure.) *)
Theorem evaluation_only_adds_to_the_cache (fuel : nat) (name : string)
    (cached : CompiledFunction) (m : Machine) :
  compiledFunctions (compiler m) !! name = Some cached ->
  (forall compiledFn args,
      compiledFunctions (compiler (invoke build fuel compiledFn args m).2) !! name
      = Some cached)
  /\ (forall expr scope context,
         compiledFunctions (compiler (evalExpr build fuel expr scope context m).2) !! name
         = Some cached)
  /\ (forall statements scope context,
         compiledFunctions
           (compiler (executeBlock build fuel statements scope context m).2) !! name
         = Some cached).
Proof.
  intros Hcached.
  destruct (evaluation_keeps_cache fuel) as (He & _ & _ & Hb & Hi).
  split; [| split]; intros.
  - now apply Hi.
  - now apply He.
  - now apply Hb.
Qed.


End Cache.

(** ** Builtins added after construction *)

Section Builtins.

Context {JS : JsHost}.
Variable build : Artifact.


End Builtins.

(** ** The two artifacts *)

Lemma capped_refl {A} (c : M A) : same_unless_capped c c.
Proof. intros m. now left. Qed.

Lemma capped_throw {A} (c : M A) : same_unless_capped (throw LoopLimitExceeded) c.
Proof. intros m. right. now exists m. Qed.

Lemma capped_bind {A B} (c c' : M A) (k k' : A -> M B) :
  same_unless_capped c c' -> (forall a, same_unless_capped (k a) (k' a)) ->
  same_unless_capped (bind c k) (bind c' k').
Proof.
  intros Hc Hk m. unfold bind. destruct (Hc m) as [<- | [m' ->]]; [| right; eauto].
  destruct (c m) as [[a | e |] m1]; [apply Hk | now left | now left].
Qed.

Lemma capped_mapM {A B} (f f' : A -> M B) (l : list A) :
  (forall a, same_unless_capped (f a) (f' a)) ->
  same_unless_capped (mapM f l) (mapM f' l).
Proof.
  intros Hf. induction l as [| a l IH]; simpl; [apply capped_refl |].
  apply capped_bind; [apply Hf | intros b].
  apply capped_bind; [exact IH | intros; apply capped_refl].
Qed.

Lemma capped_loop {A} (body body' : A -> Scope -> M (option value * Scope)) items scope :
  (forall item scope, same_unless_capped (body item scope) (body' item scope)) ->
  same_unless_capped (loop body items scope) (loop body' items scope).
Proof.
  intros Hbody. revert scope.
  induction items as [| item rest IH]; intros scope; simpl; [apply capped_refl |].
  apply capped_bind; [apply Hbody | intros [[v |] scope']];
    [apply capped_refl | apply IH].
Qed.

Ltac capped_step :=
  match goal with
  | |- same_unless_capped ?c ?c => apply capped_refl
  | |- same_unless_capped (bind _ _) (bind _ _) => apply capped_bind; [| intros ?]
  | |- same_unless_capped (mapM _ _) (mapM _ _) => apply capped_mapM; intros ?
  | |- same_unless_capped (loop _ _ _) (loop _ _ _) => apply capped_loop; intros ? ?
  | |- same_unless_capped (match ?x with _ => _ end) (match ?x with _ => _ end) =>
      destruct x
  | |- same_unless_capped _ _ => solve [auto]
  end.

Section Artifacts.

Context {JS : JsHost}.

Lemma artifacts_agree_unless_capped (fuel : nat) :
  (forall expr scope context,
      same_unless_capped (evalExpr DistJs fuel expr scope context)
                         (evalExpr SourceTs fuel expr scope context))
  /\ (forall stmt scope context,
         same_unless_capped (executeStmt DistJs fuel stmt scope context)
                            (executeStmt SourceTs fuel stmt scope context))
  /\ (forall iterations cond do_ scope context,
         same_unless_capped (whileLoop DistJs fuel iterations cond do_ scope context)
                            (whileLoop SourceTs fuel iterations cond do_ scope context))
  /\ (forall statements scope context,
         same_unless_capped (executeBlock DistJs fuel statements scope context)
                            (executeBlock SourceTs fuel statements scope context))
  /\ (forall compiledFn args,
         same_unless_capped (invoke DistJs fuel compiledFn args)
                            (invoke SourceTs fuel compiledFn args)).
Proof.
  induction fuel as [| fuel (IHe & IHs & IHw & IHb & IHi)].
  - repeat split; intros; apply capped_refl.
  - split; [| split; [| split; [| split]]].
    + intros expr scope context. destruct expr; simpl; repeat capped_step.
    + intros stmt scope context. destruct stmt; simpl; repeat capped_step.
    + intros iterations cond do_ scope context. rewrite !whileLoop_eq.
      apply capped_bind; [apply IHe | intros guard].
      destruct (truthy guard); [| apply capped_refl].
      change (over_limit SourceTs (iterations + 1)) with false. cbv iota.
      destruct (over_limit DistJs (iterations + 1)); [apply capped_throw |].
      apply capped_bind; [apply IHb | intros [[v |] scope']];
        [apply capped_refl | apply IHw].
    + intros statements scope context. simpl. repeat capped_step.
    + intros compiledFn args. simpl. repeat capped_step.
Qed.

(** X21: the built artifact and the TypeScript source differ by the
    iteration cap and by nothing else: on every machine, a call of a
    compiled function, an expression and a block either do exactly the same
    in both (same outcome, same machine), or the built artifact throws
    [LoopLimitExceeded]. *)
Theorem artifacts_differ_by_the_cap_only (fuel : nat) (m : Machine) :
  (forall compiledFn args,
      invoke DistJs fuel compiledFn args m = invoke SourceTs fuel compiledFn args m
      \/ exists m', invoke DistJs fuel compiledFn args m = (Throw LoopLimitExceeded, m'))
  /\ (forall expr scope context,
      evalExpr DistJs fuel expr scope context m = evalExpr SourceTs fuel expr scope context m
      \/ exists m',
           evalExpr DistJs fuel expr scope context m = (Throw LoopLimitExceeded, m'))
  /\ (forall statements scope context,
      executeBlock DistJs fuel statements scope context m
      = executeBlock SourceTs fuel statements scope context m
      \/ exists m',
           executeBlock DistJs fuel statements scope context m
           = (Throw LoopLimitExceeded, m')).
Proof.
  destruct (artifacts_agree_unless_capped fuel) as (He & _ & _ & Hb & Hi).
  split; [| split]; intros.
  - apply Hi.
  - apply He.
  - apply Hb.
Qed.

End Artifacts.

(** ** Laws of the expression language *)

Section Laws.

Context {JS : JsHost}.
Variable build : Artifact.

Lemma evalExpr_member fuel object property scope context :
  evalExpr build (S fuel) (EMember object property) scope context
  = (let* obj := evalExpr build fuel object scope context in
     if nullish obj then ret VUndefined else ret (js_get obj (VStr property))).
Proof. reflexivity. Qed.

Lemma evalExpr_unary fuel operator argument scope context :
  evalExpr build (S fuel) (EUnary operator argument) scope context
  = (let* arg := evalExpr build fuel argument scope context in
     lift (evalUnaryOp operator arg)).
Proof. reflexivity. Qed.

Lemma evalExpr_ternary fuel condition then_ else_ scope context :
  evalExpr build (S fuel) (ETernary condition then_ else_) scope context
  = (let* cond := evalExpr build fuel condition scope context in
     if truthy cond then evalExpr build fuel then_ scope context
     else evalExpr build fuel else_ scope context).
Proof. reflexivity. Qed.

Lemma executeStmt_return fuel e scope context :
  executeStmt build (S fuel) (SReturn e) scope context
  = (let* v := evalExpr build fuel e scope context in ret (Some v, scope)).
Proof. reflexivity. Qed.

(** X22: member access propagates a missing object: when an expression
    evaluates to [null] or [undefined], any non-empty chain of member
    accesses on it evaluates to [undefined], without an exception and
    without any further effect. *)
Theorem member_chain_on_null_is_undefined (fuel : nat) (object : Expression)
    (property : string) (properties : list string) (scope : Scope)
    (context : option ExecutionContext) (m m' : Machine) (v : value) :
  evalExpr build fuel object scope context m = (Ok v, m') ->
  nullish v = true ->
  evalExpr build (S (length properties) + fuel)
    (member_chain object (property :: properties)) scope context m
  = (Ok VUndefined, m').
Proof.
  intros Hobj Hnull. induction properties as [| q properties IH] using rev_ind.
  - cbn [length Nat.add member_chain fold_left].
    now rewrite evalExpr_member, (bind_ok _ _ _ _ _ Hobj), Hnull.
  - unfold member_chain in *. rewrite app_comm_cons, fold_left_app. cbn [fold_left].
    rewrite length_app, Nat.add_1_r. cbn [Nat.add].
    now rewrite evalExpr_member, (bind_ok _ _ _ _ _ IH).
Qed.

(** The block [[return e]] hands on what [e] evaluates to. *)
Lemma return_block fuel e scope context m r m' :
  evalExpr build fuel e scope context m = (r, m') ->
  executeBlock build (S (S fuel)) [SReturn e] scope context m
  = (match r with
     | Ok v => Ok (Some v, scope)
     | Throw e => Throw e
     | OutOfFuel => OutOfFuel
     end, m').
Proof.
  intros He. rewrite executeBlock_eq. cbn [loop].
  rewrite executeStmt_return, bind_assoc. unfold bind at 1. rewrite He.
  destruct r; reflexivity.
Qed.

(** X23: the conditional expression and the conditional statement agree:
    when [cond ? a : b] has an outcome, the statement
    [if cond then return a else return b] gives a return signal with the
    same value, or throws the same exception, and leaves the same machine
    and an unchanged scope. *)
Theorem ternary_agrees_with_if_return (fuel : nat) (cond then_ else_ : Expression)
    (scope : Scope) (context : option ExecutionContext) (m m' : Machine)
    (r : Outcome value) :
  evalExpr build fuel (ETernary cond then_ else_) scope context m = (r, m') ->
  r <> OutOfFuel ->
  executeStmt build (3 + fuel)
    (SIf cond (Some [SReturn then_]) (Some [SReturn else_])) scope context m
  = (match r with
     | Ok v => Ok (Some v, scope)
     | Throw e => Throw e
     | OutOfFuel => OutOfFuel
     end, m').
Proof.
  intros Hrun Hr. destruct fuel as [| fuel].
  { injection Hrun as <- _. now contradiction Hr. }
  rewrite evalExpr_ternary in Hrun. cbn [Nat.add]. rewrite executeStmt_if.
  destruct (more_fuel build fuel (S fuel) ltac:(lia)) as (Hbranch & _).
  destruct (more_fuel build fuel (S (S (S fuel))) ltac:(lia)) as (Hcond & _).
  unfold bind in Hrun |- *.
  destruct (evalExpr build fuel cond scope context m) as [[c | e |] m1] eqn:Hc.
  - rewrite (Hcond _ _ _ _ _ _ Hc) by discriminate. cbn [default from_option id].
    destruct (truthy c); apply return_block; now apply Hbranch.
  - rewrite (Hcond _ _ _ _ _ _ Hc) by discriminate. now injection Hrun as <- <-.
  - injection Hrun as <- _. now contradiction Hr.
Qed.

(** X24: De Morgan's laws hold in the expression language, effects
    included: [!(a || b)] and [!a && !b] have the same outcome and leave the
    same machine, and so have [!(a && b)] and [!a || !b]. *)
Theorem de_morgan (fuel : nat) (a b : Expression) (scope : Scope)
    (context : option ExecutionContext) (m : Machine) :
  evalExpr build fuel (EUnary OpNot (EBinary OpOr a b)) scope context m
  = evalExpr build fuel (EBinary OpAnd (EUnary OpNot a) (EUnary OpNot b)) scope context m
  /\ evalExpr build fuel (EUnary OpNot (EBinary OpAnd a b)) scope context m
     = evalExpr build fuel (EBinary OpOr (EUnary OpNot a) (EUnary OpNot b)) scope context m.
Proof.
  destruct fuel as [| [| fuel]]; [split; reflexivity | split; reflexivity |].
  rewrite !evalExpr_unary, !evalExpr_binary, !evalExpr_unary.
  unfold bind, lift.
  destruct (evalExpr build fuel a scope context m) as [[l | e |] m1];
    [| split; reflexivity | split; reflexivity].
  cbn [evalUnaryOp].
  destruct (evalExpr build fuel b scope context m1) as [[r | e |] m2];
    [| split; reflexivity | split; reflexivity].
  cbn [evalBinaryOp evalUnaryOp].
  change (truthy (VBool (negb (truthy l)))) with (negb (truthy l)).
  destruct (truthy l) eqn:Hl; split; cbv beta iota delta [negb]; rewrite ?Hl; reflexivity.
Qed.

End Laws.

(** ** Hooks of the execution context *)

Section Hooks.

Context {JS : JsHost}.
Variable build : Artifact.

(** X25: the [onReturn] hook of a context sees exactly the value the
    closure returns: whenever a call of the closure ends with a value, the
    last thing that happened is the hook's call on the closure's name and
    that value, and the hook ended normally. *)
Theorem onReturn_sees_the_returned_value (fuel : nat) (compiledFn : CompiledFunction)
    (onReturn : string -> value -> Host unit) (args : list value)
    (m m' : Machine) (v : value) :
  cf_context compiledFn ≫= ctx_onReturn = Some onReturn ->
  invoke build fuel compiledFn args m = (Ok v, m') ->
  exists m1, host (onReturn (cf_fnName compiledFn) v) m1 = (Ok tt, m').
Proof.
  intros Hhook Hrun. destruct fuel as [| fuel]; [discriminate |].
  rewrite invoke_eq in Hrun. cbv zeta in Hrun.
  apply bind_inv_ok in Hrun as (_ & m1 & _ & Hrun).
  destruct (fd_config (cf_def compiledFn)) as [config |]; [| discriminate].
  apply bind_inv_ok in Hrun as (_ & m2 & _ & Hrun).
  destruct (fc_body config) as [| | body]; [discriminate | discriminate |].
  apply bind_inv_ok in Hrun as ([signal scope'] & m3 & _ & Hrun).
  apply bind_inv_ok in Hrun as (returnValue & m4 & _ & Hrun).
  apply bind_inv_ok in Hrun as (_ & m5 & _ & Hrun).
  rewrite Hhook in Hrun.
  apply bind_inv_ok in Hrun as ([] & m6 & Hreturn & Hrun).
  injection Hrun as <- <-. now exists m5.
Qed.

(** X26: the [onCall] hook runs before anything else of the call, on the
    closure's name and on all the arguments, also those beyond the declared
    parameters; when it throws, the call ends with that exception and the
    body is never entered. *)
Theorem onCall_runs_before_the_body (fuel : nat) (compiledFn : CompiledFunction)
    (onCall : string -> list value -> Host unit) (args : list value)
    (m : Machine) (e : Error) (w : World) :
  cf_context compiledFn ≫= ctx_onCall = Some onCall ->
  onCall (cf_fnName compiledFn) args (world m) = (Throw e, w) ->
  invoke build (S fuel) compiledFn args m
  = (Throw e, {| compiler := compiler m; world := w |}).
Proof.
  intros Hhook Hcall. rewrite invoke_eq. cbv zeta. rewrite Hhook.
  unfold bind at 1, host at 1. now rewrite Hcall.
Qed.

End Hooks.

(** ** Compiling and listing all functions *)

Section Everything.

Context {JS : JsHost}.

Lemma compile_validated fnName context m def :
  validated (compiler m) ->
  functionDefs (compiler m) !! fnName = Some def ->
  exists config params,
    fd_config def = Some config
    /\ normalizeParams (fc_params config) = Ok params
    /\ compile fnName context m
       = (Ok {| cf_fnName := fnName; cf_def := def; cf_params := params;
                cf_context := context |},
          (set_compiledFunctions
             (fun cache => <[fnName := {| cf_fnName := fnName; cf_def := def;
                                          cf_params := params;
                                          cf_context := context |}]> cache) m).2).
Proof.
  intros Hvalid Hdef.
  destruct (Hvalid _ _ Hdef) as (_ & config & params & body & Hc & Hp & _).
  assert (Hn : exists names, normalizeParams (fc_params config) = Ok names).
  { rewrite Hp. destruct params; simpl; eauto. }
  destruct Hn as (names & Hn). exists config, names.
  split; [exact Hc |]. split; [exact Hn |].
  exact (compile_loaded fnName context m def config names Hdef Hc Hn).
Qed.





(** X28: [listFunctions] and [compile] agree on the parameters: on a
    compiler whose stored definitions are validated, listing the stored
    entries succeeds without touching the machine, gives one record per
    entry under the entry's name, and the parameter names of each record
    are the ones the closure compiled for that name binds. *)
Theorem listFunctions_reports_the_compiled_parameters
    (entries : list (string * FunctionDef)) (m : Machine) :
  validated (compiler m) ->
  stored_in m entries ->
  exists infos,
    listFunctions entries m = (Ok infos, m)
    /\ fi_name <$> infos = entries.*1
    /\ forall i info context,
         infos !! i = Some info ->
         exists fn m',
           compile (fi_name info) context m = (Ok fn, m')
           /\ cf_params fn = fi_params info.
Proof.
  intros Hvalid. unfold listFunctions, stored_in.
  induction entries as [| [name def] entries IH]; intros Hstored.
  - exists []. split; [reflexivity |]. split; [reflexivity |].
    intros i info context H. discriminate.
  - destruct IH as (infos & Hrun & Hnames & Hall).
    { intros n d Hin. apply Hstored. now right. }
    assert (Hdef : functionDefs (compiler m) !! name = Some def)
      by (apply Hstored; now left).
    destruct (compile_validated name None m def Hvalid Hdef)
      as (config & params & Hc & Hn & _).
    exists ({| fi_name := name; fi_description := default EmptyString (fc_description config);
               fi_params := params |} :: infos).
    split; [| split].
    + cbn [mapM fst snd]. unfold bind at 1, lift at 1, function_info.
      rewrite Hc, Hn. now rewrite (bind_ok _ _ _ _ _ Hrun).
    + cbn [fmap list_fmap fst fi_name]. f_equal. exact Hnames.
    + intros [| i] info context Hinfo.
      * injection Hinfo as <-. cbn [fi_name fi_params].
        destruct (compile_validated name context m def Hvalid Hdef)
          as (config' & params' & Hc' & Hn' & Hcompile).
        rewrite Hc in Hc'. injection Hc' as <-. rewrite Hn in Hn'. injection Hn' as <-.
        eexists _, _. split; [exact Hcompile | reflexivity].
      * exact (Hall i info context Hinfo).
Qed.

End Everything.

(** ** From a document to a result *)

Section Pipeline.

Context {JS : JsHost}.
Variable build : Artifact.

(** X29: loading a document, compiling one of its functions and calling
    the closure is running the function's body: when every entry of the
    document passes validation and the names are distinct, [load] and
    [compile] succeed for any listed function, and the call runs the body
    on the scope made of the context variables overwritten by the
    parameters, then, if the body gave no return signal, the trailing
    return expression on the scope the body left. *)
Theorem loaded_function_runs_its_body (fuel : nat)
    (entries : list (string * FunctionDef)) (fnName : string)
    (params : list string) (body : list Statement) (result : Expression)
    (variables : list (string * value)) (args : list value) (m : Machine) :
  Forall (fun e => well_formed e.2) entries ->
  NoDup entries.*1 ->
  (fnName, function params body result) ∈ entries ->
  let context := Some (variables_only variables) in
  exists m1 m2,
    load (document entries) m = (Ok tt, m1)
    /\ compile fnName context m1
       = (Ok (closure fnName params body result variables), m2)
    /\ load_compile_call build (S fuel) (document entries) fnName context args m
       = (let* (signal, scope) :=
            executeBlock build fuel body
              (bind_params params 0 args (seed_variables variables ∅)) context in
          match signal with
          | Some v => ret v
          | None =>
              if slot_present result then evalExpr build fuel result scope context
              else ret VUndefined
          end) m2.
Proof.
  intros Hwf Hnodup Hin context.
  destruct (load_entries_stores entries m Hwf) as (m1 & Hload & Hdefs).
  assert (Hdef : functionDefs (compiler m1) !! fnName
                 = Some (function params body result)).
  { rewrite Hdefs. apply lookup_union_Some_l. apply elem_of_list_to_map_1.
    - rewrite fmap_reverse. now rewrite reverse_Permutation.
    - now apply elem_of_reverse. }
  pose proof (compile_loaded fnName context m1 _ _ params Hdef eq_refl eq_refl) as Hcompile.
  cbv zeta in Hcompile. eexists m1, _.
  split; [exact Hload |]. split; [exact Hcompile |].
  unfold load_compile_call.
  rewrite (bind_ok _ _ _ _ _ Hload), (bind_ok _ _ _ _ _ Hcompile).
  apply invoke_runs_body.
Qed.

End Pipeline.

(** ** Closures, their contexts and the cache *)











Section ClosuresAndCache.

Context {JS : JsHost}.
Variable build : Artifact.







End ClosuresAndCache.

(** * The properties on sample inputs *)

(** ** Expressions *)

#[local] Existing Instance ReferenceHost.host.

(** C1, as stated, fails.  In [true || log(1)] and in [false && log(1)] the
    left operand decides the result, and the call of [log] in the right
    operand still writes its line to the console, in both artifacts; in
    [true || missing] the right operand raises its error. *)
Lemma right_operand_runs_although_left_decides :
  evalExpr SourceTs 2 (EBoolean true) ∅ None start = (Ok (VBool true), start)
  /\ truthy (VBool true) = true
  /\ evalExpr SourceTs 3 true_or_log ∅ None start
     = (Ok (VBool true), logged [VStr "[DSL]"; VNum 1])
  /\ evalExpr DistJs 3 true_or_log ∅ None start
     = (Ok (VBool true), logged [VStr "[DSL]"; VNum 1])
  /\ evalExpr SourceTs 3 false_and_log ∅ None start
     = (Ok (VBool false), logged [VStr "[DSL]"; VNum 1])
  /\ evalExpr SourceTs 3 true_or_missing ∅ None start
     = (Throw (UndefinedVariable "missing"), start)
  /\ console (world (logged [VStr "[DSL]"; VNum 1])) <> console (world start).
Proof.
  repeat split; try reflexivity. discriminate.
Qed.

(** [true || log(1)]: the value is [true] and the line of [log] is on the
    console. *)
Lemma logical_operators_evaluate_both_operands_witness :
  evalExpr SourceTs 2 (EBoolean true) ∅ None start = (Ok (VBool true), start)
  /\ evalExpr SourceTs 2 log_call ∅ None start
     = (Ok VUndefined, logged [VStr "[DSL]"; VNum 1])
  /\ evalExpr SourceTs 3 true_or_log ∅ None start
     = (Ok (logical_value OpOr (VBool true) VUndefined), logged [VStr "[DSL]"; VNum 1]).
Proof.
  split; [reflexivity |]. split; [reflexivity |].
  apply (logical_operators_evaluate_both_operands SourceTs 2 OpOr (EBoolean true)
           log_call ∅ None start start (VBool true));
    [right; reflexivity | reflexivity | reflexivity].
Defined.

(** C3, as stated, fails for a method outside the whitelist: the receiver
    of [null.reverse()] evaluates to [null], and the call raises
    [MethodNotAllowed], not [NullReceiver]. *)
Lemma null_receiver_of_unlisted_method :
  evalExpr SourceTs 1 (ELiteral LitNull) ∅ None start = (Ok VNull, start)
  /\ evalExpr SourceTs 2 (EMethod "reverse" (ELiteral LitNull) None) ∅ None start
     = (Throw (MethodNotAllowed "reverse"), start)
  /\ evalExpr SourceTs 2 (EMethod "reverse" (ELiteral LitNull) None) ∅ None start
     <> (Throw (NullReceiver "reverse"), start).
Proof.
  repeat split; try reflexivity.
  intros H. apply (f_equal fst) in H. vm_compute in H. discriminate.
Qed.

(** [null.push(1)] raises [NullReceiver]. *)
Lemma whitelisted_method_on_null_receiver_witness :
  ("push" ∈ allowedMethods (compiler start))
  /\ evalExpr SourceTs 2 (EMethod "push" (ELiteral LitNull) (Some [ENumber 1])) ∅ None start
     = (Throw (NullReceiver "push"), start).
Proof.
  assert (Hin : "push" ∈ allowedMethods (compiler start)).
  { apply (bool_decide_unpack _). vm_compute. exact I. }
  split; [exact Hin |].
  apply (whitelisted_method_on_null_receiver SourceTs 1 "push" (ELiteral LitNull)
           (Some [ENumber 1]) ∅ None start start VNull Hin);
    [reflexivity | left; reflexivity].
Defined.

(** [[1].reverse()] raises [MethodNotAllowed], although arrays have the
    method. *)
Lemma method_outside_whitelist_is_rejected_witness :
  ("reverse" ∉ allowedMethods (compiler start))
  /\ evalExpr SourceTs 3 (EMethod "reverse" (EArray [ENumber 1]) None) ∅ None start
     = (Throw (MethodNotAllowed "reverse"), start).
Proof.
  assert (Hout : "reverse" ∉ allowedMethods (compiler start)).
  { apply (bool_decide_eq_false_1 _). vm_compute. reflexivity. }
  split; [exact Hout |].
  apply (method_outside_whitelist_is_rejected SourceTs 2 "reverse" (EArray [ENumber 1])
           None ∅ None start start (VArr [VNum 1]) Hout).
  reflexivity.
Defined.

(** [7 / -0] is [0]. *)
Lemma division_by_zero_yields_zero_witness :
  evalBinaryOp OpDiv (VNum 7) (VNum neg_zero) = Ok (VNum zero)
  /\ evalExpr SourceTs 2 (EBinary OpDiv (ENumber 7) (ENumber neg_zero)) ∅ None start
     = (Ok (VNum zero), start).
Proof.
  apply (division_by_zero_yields_zero SourceTs 1 (ENumber 7) (ENumber neg_zero) ∅ None
           start start start (VNum 7) neg_zero);
    [right; reflexivity | reflexivity | reflexivity].
Defined.


(** ** Statements, closures and loading *)


(** [sumArray([1, 2, 3, 4, 5])] is 15 in the built artifact as well, and
    [factorial(5)], whose loop assigns two variables declared before it, is
    120. *)
Example sumArray_and_factorial :
  (load_compile_call DistJs 20 sample_config "sumArray" None
     [VArr [VNum 1; VNum 2; VNum 3; VNum 4; VNum 5]] start).1 = Ok (VNum 15)
  /\ (load_compile_call SourceTs 40 sample_config "factorial" None [VNum 5] start).1
     = Ok (VNum 120).
Proof. split; vm_compute; reflexivity. Qed.



(** The price example of the README: [calculatePrice] compiled with the
    US context and with the EU context, both closures called on 100. *)
Example calculatePrice_under_two_contexts :
  (compile_twice_and_call SourceTs 10 sample_config "calculatePrice"
     (Some us_context) (Some eu_context) [VNum 100] start).1
  = Ok (VNum 97.2, VNum 114).
Proof. vm_compute. reflexivity. Qed.

(** [add] tagged ["CALLBACK"] is rejected; after loading the sample
    document every stored definition is tagged ["FUNCTION"]. *)
Lemma load_accepts_only_the_FUNCTION_tag_witness :
  validateFunction "add" callback_add
  = Throw (InvalidDefinition "add" TypeMustBeFUNCTION)
  /\ (exists name fault m',
         load (Some {| functions := Some [("add", callback_add)] |}) start
         = (Throw (InvalidDefinition name fault), m'))
  /\ only_FUNCTION_definitions (compiler (load sample_config start).2).
Proof.
  destruct load_accepts_only_the_FUNCTION_tag
    as (_ & Hvalidate & Hload & Hnew & Hkeep & _).
  split; [apply Hvalidate; reflexivity |].
  split; [apply (Hload _ start "add" callback_add); [left | reflexivity] |].
  apply Hkeep, Hnew.
Defined.

(** The document of [demo.ts], whose definitions carry the declared tag, is
    rejected at its first entry and nothing is stored. *)
Example demo_document_is_rejected :
  load (Some {| functions := Some [("add", callback_add)] |}) start
  = (Throw (InvalidDefinition "add" TypeMustBeFUNCTION), start).
Proof. reflexivity. Qed.

(** ** The further properties on sample inputs *)

(** [[1, 2]] evaluates to an array of two values, and [{a: 1, b: 2}] to an
    object with the keys [a] and [b], in this order. *)
Lemma construction_keeps_the_shape_witness :
  evalExpr SourceTs 2 (EArray [ENumber 1; ENumber 2]) ∅ None start
  = (Ok (VArr [VNum 1; VNum 2]), start)
  /\ (exists values,
         VArr [VNum 1; VNum 2] = VArr values
         /\ length values = length [ENumber 1; ENumber 2])
  /\ evalExpr SourceTs 2 (EObject [("a", ENumber 1); ("b", ENumber 2)]) ∅ None start
     = (Ok (VObj [("a", VNum 1); ("b", VNum 2)]), start)
  /\ (exists fields,
         VObj [("a", VNum 1); ("b", VNum 2)] = VObj fields
         /\ fields.*1 = ["a"; "b"]).
Proof.
  split; [reflexivity |]. split; [| split; [reflexivity |]].
  - apply (proj1 (construction_keeps_the_shape SourceTs 2 ∅ None start start
                    (VArr [VNum 1; VNum 2])) [ENumber 1; ENumber 2]).
    reflexivity.
  - apply (proj2 (construction_keeps_the_shape SourceTs 2 ∅ None start start
                    (VObj [("a", VNum 1); ("b", VNum 2)]))
             [("a", ENumber 1); ("b", ENumber 2)]).
    + apply (bool_decide_unpack _). vm_compute. exact I.
    + reflexivity.
Defined.


(** [total + 1], of depth 1, ends with fuel 2, and the body of [sumArray],
    of depth 5, with fuel 6. *)
Lemma code_without_calls_and_while_terminates_witness :
  (evalExpr SourceTs 2 (EBinary OpAdd (ERef "total") (ENumber 1)) ∅ None start).1
  <> OutOfFuel
  /\ (executeBlock SourceTs 6 sumArray_body (<["items" := VArr [VNum 1; VNum 2]]> ∅)
        None start).1 <> OutOfFuel.
Proof.
  split.
  - apply (proj1 (code_without_calls_and_while_terminates SourceTs 2 ∅ None start));
      [reflexivity | simpl; lia].
  - apply (proj2 (code_without_calls_and_while_terminates SourceTs 6
                    (<["items" := VArr [VNum 1; VNum 2]]> ∅) None start));
      [reflexivity | reflexivity | unfold block_depth; simpl; lia].
Defined.

(** After [let x = 1], [y] is still bound. *)
Lemma bindings_are_never_removed_witness :
  executeBlock SourceTs 3 [SLet "x" (ENumber 1)] (<["y" := VNum 0]> ∅) None start
  = (Ok (None, <["x" := VNum 1]> (<["y" := VNum 0]> ∅)), start)
  /\ is_Some ((<["x" := VNum 1]> (<["y" := VNum 0]> ∅) : Scope) !! "y").
Proof.
  assert (Hrun : executeBlock SourceTs 3 [SLet "x" (ENumber 1)] (<["y" := VNum 0]> ∅)
                   None start
                 = (Ok (None, <["x" := VNum 1]> (<["y" := VNum 0]> ∅)), start))
    by reflexivity.
  split; [exact Hrun |].
  apply (bindings_are_never_removed SourceTs 3 _ _ _ _ _ _ _ "y" Hrun).
  exists (VNum 0). reflexivity.
Defined.

(** After [for item of [7] do nothing], [item] is bound. *)
Lemma loop_variable_outlives_the_loop_witness :
  executeStmt SourceTs 3 (SFor "item" (EArray [ENumber 7]) (Some [])) ∅ None start
  = (Ok (None, <["item" := VNum 7]> ∅), start)
  /\ is_Some ((<["item" := VNum 7]> ∅ : Scope) !! "item").
Proof.
  split; [reflexivity |].
  apply (loop_variable_outlives_the_loop SourceTs 2 "item" (EArray [ENumber 7]) (Some [])
           ∅ None start start (VArr [VNum 7]) (VNum 7) [] None
           (<["item" := VNum 7]> ∅) start); reflexivity.
Defined.

(** A [for] over ["ab"] is a [for] over [["a", "b"]]. *)
Lemma for_over_a_string_witness :
  executeStmt SourceTs 3 (SFor "c" (ELiteral (LitString "ab")) None) ∅ None start
  = executeStmt SourceTs 3
      (SFor "c" (EArray [ELiteral (LitString "a"); ELiteral (LitString "b")]) None)
      ∅ None start.
Proof.
  apply (proj2 (proj2 (for_over_a_string SourceTs 0 "c" "ab" None ∅ None start))).
  discriminate.
Defined.

(** [second(x, y)] returns [y]: called on 1, 2, 3 under a context that
    binds [y], it yields 2. *)
Lemma parameter_takes_the_argument_at_its_position_witness :
  exists fn m1,
    compile "second" (Some (variables_only [("y", VStr "from the context")]))
      (loaded "second" (function ["x"; "y"] [] (ERef "y")))
    = (Ok fn, m1)
    /\ invoke SourceTs 2 fn [VNum 1; VNum 2; VNum 3] m1 = (Ok (VNum 2), m1).
Proof.
  apply (parameter_takes_the_argument_at_its_position SourceTs 0 "second" ["x"] "y" []
           [("y", VStr "from the context")] [VNum 1; VNum 2; VNum 3]
           (loaded "second" (function ["x"; "y"] [] (ERef "y"))));
    [reflexivity | apply not_elem_of_nil].
Defined.

(** A function with an empty body and [return: 0] yields [undefined]; with
    [return: {literal: 0}] it yields 0. *)
Lemma falsy_shorthand_return_is_skipped_witness :
  invoke SourceTs 2 (closure "zero" ["a"] [] (ENumber 0) []) [VNum 5] start
  = (Ok VUndefined, start)
  /\ invoke SourceTs 2 (closure "zero" ["a"] [] (ELiteral (LitNumber 0)) []) [VNum 5] start
     = (Ok (VNum 0), start)
  /\ evalExpr SourceTs 1 (ENumber 0) (bind_params ["a"] 0 [VNum 5] ∅)
       (Some (variables_only [])) start
     = (Ok (VNum 0), start).
Proof.
  apply (falsy_shorthand_return_is_skipped SourceTs 0 "zero" ["a"] [] [] [VNum 5]
           start start (bind_params ["a"] 0 [VNum 5] ∅) 0%float); reflexivity.
Defined.

(** The sample document is stored completely; [add] is found under its
    name. *)
Lemma load_stores_every_entry_witness :
  exists m',
    load (document sample_entries) start = (Ok tt, m')
    /\ functionDefs (compiler m') !! "add" = Some add_def.
Proof.
  assert (Hwf : Forall (fun e => well_formed e.2) sample_entries).
  { repeat (constructor; [apply function_well_formed |]). constructor. }
  destruct (load_stores_every_entry sample_entries start Hwf)
    as (m' & Hrun & _ & _ & Hall).
  exists m'. split; [exact Hrun |]. apply Hall.
  - apply (bool_decide_unpack _). vm_compute. exact I.
  - now left.
Defined.

(** A document whose second entry carries the tag [CALLBACK]: the
    exception is the one of that entry, and [add], the first entry, stays
    stored. *)
Lemma load_stops_at_the_first_invalid_entry_witness :
  exists m',
    load (document [("add", add_def)]) start = (Ok tt, m')
    /\ load (document [("add", add_def); ("broken", callback_add);
                       ("sumArray", sumArray_def)]) start
       = (Throw (InvalidDefinition "broken" TypeMustBeFUNCTION), m')
    /\ functionDefs (compiler m')
       = list_to_map (reverse [("add", add_def)]) ∪ functionDefs (compiler start).
Proof.
  apply (load_stops_at_the_first_invalid_entry [("add", add_def)] "broken" callback_add
           [("sumArray", sumArray_def)]
           (InvalidDefinition "broken" TypeMustBeFUNCTION) start).
  - constructor; [apply function_well_formed | constructor].
  - reflexivity.
Defined.

(** After loading the sample document every stored definition is
    validated. *)
Lemma stored_definitions_are_validated_witness :
  validated (compiler (load sample_config start).2).
Proof.
  destruct stored_definitions_are_validated as (Hnew & Hload & _).
  apply Hload, Hnew.
Defined.

(** With [add] loaded, [compile('add')] succeeds and [compile('nope')]
    raises [FunctionNotFound]. *)
Lemma compile_fails_for_unknown_names_only_witness :
  compile "nope" None (loaded "add" add_def)
  = (Throw (FunctionNotFound "nope"), loaded "add" add_def)
  /\ exists fn m',
       compile "add" None (loaded "add" add_def) = (Ok fn, m')
       /\ cf_def fn = add_def.
Proof.
  assert (Hvalid : validated (compiler (loaded "add" add_def))).
  { intros name def Hdef. cbn [loaded compiler functionDefs] in Hdef.
    apply lookup_singleton_Some in Hdef as [_ <-].
    apply function_well_formed. }
  split.
  - exact (compile_fails_for_unknown_names_only "nope" None (loaded "add" add_def) Hvalid).
  - destruct (compile_fails_for_unknown_names_only "add" None (loaded "add" add_def) Hvalid)
      as (fn & m' & Hrun & _ & Hdef & _).
    exists fn, m'. split; [exact Hrun | exact Hdef].
Defined.

(** [get('add')] after [compile('add')] returns the closure of [add]. *)
Lemma get_returns_the_last_compiled_closure_witness :
  compile "add" None (loaded "add" add_def)
  = (Ok add_closure, (compile "add" None (loaded "add" add_def)).2)
  /\ get "add" (compile "add" None (loaded "add" add_def)).2
     = (Ok (Some add_closure), (compile "add" None (loaded "add" add_def)).2).
Proof.
  assert (Hrun : compile "add" None (loaded "add" add_def)
                 = (Ok add_closure, (compile "add" None (loaded "add" add_def)).2))
    by reflexivity.
  split; [exact Hrun |].
  destruct (get_returns_the_last_compiled_closure "add" None (loaded "add" add_def))
    as (_ & Hget & _).
  exact (proj1 (Hget _ _ Hrun)).
Defined.

(** With [add] cached, a call of [sumArray] compiles and caches
    [sumArray]; [add] is still cached. *)
Lemma evaluation_only_adds_to_the_cache_witness :
  compiledFunctions (compiler after_compiling_add) !! "add" = Some add_closure
  /\ compiledFunctions
       (compiler (evalExpr SourceTs 10
                    (ECall "sumArray" (Some [EArray [ENumber 1; ENumber 2]]))
                    ∅ None after_compiling_add).2) !! "add"
     = Some add_closure.
Proof.
  assert (Hcached : compiledFunctions (compiler after_compiling_add) !! "add"
                    = Some add_closure) by reflexivity.
  split; [exact Hcached |].
  destruct (evaluation_only_adds_to_the_cache SourceTs 10 "add" add_closure
              after_compiling_add Hcached) as (_ & Hexpr & _).
  apply Hexpr.
Defined.



(** [user.address.city] with [user] bound to [null] is [undefined]. *)
Lemma member_chain_on_null_is_undefined_witness :
  evalExpr SourceTs 3 (EMember (EMember (ERef "user") "address") "city")
    (<["user" := VNull]> ∅) None start
  = (Ok VUndefined, start).
Proof.
  apply (member_chain_on_null_is_undefined SourceTs 1 (ERef "user") "address" ["city"]
           (<["user" := VNull]> ∅) None start start VNull); reflexivity.
Defined.

(** [true ? 1 : 2] is 1, and [if true then return 1 else return 2] returns
    1. *)
Lemma ternary_agrees_with_if_return_witness :
  evalExpr SourceTs 2 (ETernary (EBoolean true) (ENumber 1) (ENumber 2)) ∅ None start
  = (Ok (VNum 1), start)
  /\ executeStmt SourceTs 5
       (SIf (EBoolean true) (Some [SReturn (ENumber 1)]) (Some [SReturn (ENumber 2)]))
       ∅ None start
     = (Ok (Some (VNum 1), ∅), start).
Proof.
  split; [reflexivity |].
  apply (ternary_agrees_with_if_return SourceTs 2 (EBoolean true) (ENumber 1) (ENumber 2)
           ∅ None start start (Ok (VNum 1))); [reflexivity | discriminate].
Defined.

(** [add(2, 3)] under the logging context: the last line on the console
    is the one of [onReturn], with the value 5. *)
Lemma onReturn_sees_the_returned_value_witness :
  invoke SourceTs 3
    {| cf_fnName := "add"; cf_def := add_def; cf_params := ["a"; "b"];
       cf_context := Some logging_context |}
    [VNum 2; VNum 3] start
  = (Ok (VNum 5),
     with_console [[VStr "onCall"; VStr "add"; VNum 2; VNum 3];
                   [VStr "onReturn"; VStr "add"; VNum 5]])
  /\ exists m1,
       host (logging_onReturn "add" (VNum 5)) m1
       = (Ok tt, with_console [[VStr "onCall"; VStr "add"; VNum 2; VNum 3];
                               [VStr "onReturn"; VStr "add"; VNum 5]]).
Proof.
  split; [reflexivity |].
  apply (onReturn_sees_the_returned_value SourceTs 3
           {| cf_fnName := "add"; cf_def := add_def; cf_params := ["a"; "b"];
              cf_context := Some logging_context |}
           logging_onReturn [VNum 2; VNum 3] start _ (VNum 5)); reflexivity.
Defined.

(** Under a context whose [onCall] refuses, [add(2, 3)] ends with the
    exception of the hook. *)
Lemma onCall_runs_before_the_body_witness :
  invoke SourceTs 1
    {| cf_fnName := "add"; cf_def := add_def; cf_params := ["a"; "b"];
       cf_context := Some refusing_context |}
    [VNum 2; VNum 3] start
  = (Throw (HostError "refused"), start).
Proof.
  apply (onCall_runs_before_the_body SourceTs 0
           {| cf_fnName := "add"; cf_def := add_def; cf_params := ["a"; "b"];
              cf_context := Some refusing_context |}
           (fun _ _ w => (Throw (HostError "refused"), w)) [VNum 2; VNum 3] start
           (HostError "refused") (world start)); reflexivity.
Defined.


(** After loading the sample document, [listFunctions] lists its four
    functions. *)
Lemma listFunctions_reports_the_compiled_parameters_witness :
  exists infos,
    listFunctions sample_entries (load sample_config start).2
    = (Ok infos, (load sample_config start).2)
    /\ fi_name <$> infos = ["add"; "sumArray"; "calculatePrice"; "factorial"].
Proof.
  assert (Hvalid : validated (compiler (load sample_config start).2))
    by apply (load_entries_validated sample_entries start), constructor_validated.
  assert (Hstored : stored_in (load sample_config start).2 sample_entries).
  { intros name def Hin.
    repeat (apply elem_of_cons in Hin as [[= -> ->] | Hin]; [reflexivity |]).
    now apply elem_of_nil in Hin. }
  destruct (listFunctions_reports_the_compiled_parameters sample_entries
              (load sample_config start).2 Hvalid Hstored)
    as (infos & Hrun & Hnames & _).
  exists infos. split; [exact Hrun | exact Hnames].
Defined.

(** [load(sample); compile('add')(2, 3)] is 5. *)
Lemma loaded_function_runs_its_body_witness :
  exists m2,
    load_compile_call SourceTs 3 (document sample_entries) "add"
      (Some (variables_only [])) [VNum 2; VNum 3] start
    = (Ok (VNum 5), m2).
Proof.
  assert (Hwf : Forall (fun e => well_formed e.2) sample_entries).
  { repeat (constructor; [apply function_well_formed |]). constructor. }
  assert (Hnodup : NoDup sample_entries.*1)
    by (apply (bool_decide_unpack _); vm_compute; exact I).
  assert (Hin : ("add", function ["a"; "b"] [] (EBinary OpAdd (ERef "a") (ERef "b")))
                ∈ sample_entries) by now left.
  destruct (loaded_function_runs_its_body SourceTs 2 sample_entries "add" ["a"; "b"] []
              (EBinary OpAdd (ERef "a") (ERef "b")) [] [VNum 2; VNum 3] start
              Hwf Hnodup Hin)
    as (m1 & m2 & _ & _ & Hrun).
  exists m2. rewrite Hrun. reflexivity.
Defined.
